(** * auditor-tools (legacy EPT front end): observable store, log panel, shell

    A shallow embedding of
      - [LogPanel]    (components/LogPanel.ts),
      - [AppState]    (components/AppState.ts),
      - the parts of [EPTAppShell] (components/EPTAppShell.ts) that drive
        the store: the drop handler, [handleUserInput], [startProcessing],
        the dialog buttons, the native drag-and-drop listener, [updateUI],
        and a run of the shell from its launch,
      - [ProgressPanel] (components/ProgressPanel.ts),
      - the file-conversion view of the dashboard shell
        (tasks/file-conversion/FileConversionView.ts).

    Conventions of the embedding
      - JavaScript strings are [string]; [null] is [None].
      - An array that is only read through a reference is a [list]; the
        listener array of [AppState], which is pushed to in place and
        replaced by [filter], lives in an explicit store of array objects.
      - A DOM element is a [Node] with an identity; the children of
        [#logs-panel] are a [list Node].  Layout ([scrollTop]) is not
        modelled.
      - Time ([new Date()]) and the Tauri backend are inputs of the model. *)

From Stdlib Require Import Strings.String Strings.Ascii.
From stdpp Require Import gmap strings list pretty.

Local Open Scope string_scope.
Local Open Scope list_scope.

(** ** Data model (AppState.ts) *)

Record LogEntry := mkLogEntry {
  level : string;
  message : string;
  timestamp : string
}.

Record ReportModel := mkReportModel {
  file_name : string;
  sha512 : option string;
  processed : string;
  skip_reason : option string;
  relative_path : string;
  file_type : string;
  file_size_bytes : Z;
  file_size_human : string;
  last_modified : string;
  created_time : string
}.

Record ProcessingResult := mkProcessingResult {
  entries : list ReportModel;
  staging_path : string;
  llm_output_path : string;
  report_path : string
}.

(** ** LogPanel: the severity filter *)

Module LogPanel.

(** The object literal of [shouldShowLog], by its own keys. *)
Definition levelHierarchy : gmap string nat :=
  {[ "ERROR" := 0; "WARNING" := 1; "INFO" := 2 ]}.

(** What [levelHierarchy[key]] can evaluate to when it is not [undefined]. *)
Inductive JsValue :=
  | JsNumber (n : nat)
  | JsObject (primitive : string).

(** [levelHierarchy] is a plain object literal: a key it does not own is
    looked up on [Object.prototype].  The members every web engine defines
    there are functions, and [__proto__] is the prototype object itself.
    In a comparison such a value is converted by its [toString]; the text
    kept here is the beginning of that string, up to where the engines
    print the same characters.  Two different texts of the table differ
    before either ends, so the order of two images is the order of their
    texts. *)
Definition objectPrototype : list (string * string) :=
  [ ("constructor", "function Object() {");
    ("__defineGetter__", "function __defineGetter__() {");
    ("__defineSetter__", "function __defineSetter__() {");
    ("hasOwnProperty", "function hasOwnProperty() {");
    ("__lookupGetter__", "function __lookupGetter__() {");
    ("__lookupSetter__", "function __lookupSetter__() {");
    ("isPrototypeOf", "function isPrototypeOf() {");
    ("propertyIsEnumerable", "function propertyIsEnumerable() {");
    ("toString", "function toString() {");
    ("valueOf", "function valueOf() {");
    ("__proto__", "[object Object]");
    ("toLocaleString", "function toLocaleString() {") ].

Fixpoint inherited (key : string) (proto : list (string * string)) : option string :=
  match proto with
  | [] => None
  | (k, v) :: rest => if String.eqb k key then Some v else inherited key rest
  end.

(** [levelHierarchy[key]]; [None] is [undefined]. *)
Definition getProperty (key : string) : option JsValue :=
  match levelHierarchy !! key with
  | Some n => Some (JsNumber n)
  | None => JsObject <$> inherited key objectPrototype
  end.

(** [x ?? 2] *)
Definition orTwo (x : option JsValue) : JsValue :=
  match x with
  | Some v => v
  | None => JsNumber 2
  end.

(** [a <= b]: numbers compare as numbers; an object against a number
    becomes a string that is not a numeral, hence NaN, and the comparison
    is false; two objects compare their string images, code unit by code
    unit. *)
Definition jsLe (a b : JsValue) : bool :=
  match a, b with
  | JsNumber x, JsNumber y => Nat.leb x y
  | JsObject s, JsObject t => String.leb s t
  | _, _ => false
  end.

Definition shouldShowLog (log : LogEntry) (minLevel : string) : bool :=
  let minLevelIndex := orTwo (getProperty minLevel) in
  let logLevelIndex := orTwo (getProperty (level log)) in
  jsLe logLevelIndex minLevelIndex.

Definition filterLogsByLevel (logs : list LogEntry) (minLevel : string) : list LogEntry :=
  List.filter (fun log => shouldShowLog log minLevel) logs.

(** *** The rendered page

    An element created by [createLogElement] or parsed from the empty-state
    markup.  [nodeId] is the identity of the element object: two elements
    built from the same entry are different nodes. *)
Inductive Node :=
  | EmptyMessage (nodeId : nat)
  | LogElement (nodeId : nat) (log : LogEntry).

Definition nodeId (n : Node) : nat :=
  match n with
  | EmptyMessage i => i
  | LogElement i _ => i
  end.

(** [String.prototype.toLowerCase] on the ASCII letters.  (The characters
    outside ASCII that it changes do not become a letter of [log-empty],
    the only class name the panel selects by.) *)
Definition lowerAscii (c : ascii) : ascii :=
  let n := nat_of_ascii c in
  if Nat.leb 65 n && Nat.leb n 90 then ascii_of_nat (n + 32) else c.

Fixpoint toLowerCase (s : string) : string :=
  match s with
  | EmptyString => EmptyString
  | String c rest => String (lowerAscii c) (toLowerCase rest)
  end.

(** [div.className]: the empty-state markup is
    [<div class="log-empty">No logs yet</div>], a log element gets
    [`log-entry log-${log.level.toLowerCase()}`]. *)
Definition className (n : Node) : string :=
  match n with
  | EmptyMessage _ => "log-empty"
  | LogElement _ log => "log-entry log-" +:+ toLowerCase (level log)
  end.

(** A class attribute is a set of tokens separated by ASCII whitespace. *)
Definition isAsciiWhitespace (c : ascii) : bool :=
  let n := nat_of_ascii c in
  Nat.eqb n 9 || Nat.eqb n 10 || Nat.eqb n 12 || Nat.eqb n 13 || Nat.eqb n 32.

Definition flushToken (token : string) (tokens : list string) : list string :=
  match token with
  | EmptyString => tokens
  | _ => token :: tokens
  end.

Fixpoint classTokens (token : string) (s : string) : list string :=
  match s with
  | EmptyString => flushToken token []
  | String c rest =>
      if isAsciiWhitespace c then flushToken token (classTokens EmptyString rest)
      else classTokens (token +:+ String c EmptyString) rest
  end.

(** Does the selector [.cls] match the element?  (The spans inside a log
    element carry [log-timestamp], [log-level] and [log-message] and never
    match [.log-empty].) *)
Definition matchesClass (cls : string) (n : Node) : bool :=
  existsb (String.eqb cls) (classTokens EmptyString (className n)).

(** [container.querySelector(sel)?.remove()]: the first matching child, in
    document order, leaves the container. *)
Fixpoint removeFirst (sel : Node -> bool) (children : list Node) : list Node :=
  match children with
  | [] => []
  | n :: rest => if sel n then rest else n :: removeFirst sel rest
  end.

(** The part of the document [update] looks at. *)
Record Document := mkDocument {
  logsPanel : option (list Node);      (* children of #logs-panel, if present *)
  logLevelSelect : option string;      (* value of #log-level-select, if present *)
  nextNodeId : nat                     (* elements created so far *)
}.

(** The fields of a [LogPanel] object. *)
Record Self := mkSelf {
  lastRenderedCount : nat;
  lastLogLevel : string
}.

Record Screen := mkScreen {
  this : Self;
  document : Document
}.

Definition setLastRenderedCount (n : nat) (s : Screen) : Screen :=
  mkScreen (mkSelf n (lastLogLevel (this s))) (document s).

Definition setLastLogLevel (l : string) (s : Screen) : Screen :=
  mkScreen (mkSelf (lastRenderedCount (this s)) l) (document s).

Definition setChildren (children : list Node) (s : Screen) : Screen :=
  mkScreen (this s)
    (mkDocument (Some children) (logLevelSelect (document s)) (nextNodeId (document s))).

Definition children (s : Screen) : list Node :=
  default [] (logsPanel (document s)).

(** Assigning [select.value]: the option with that value becomes selected;
    when there is none the select has no selection and reads as [""]. *)
Definition selectOptions : list string := ["INFO"; "WARNING"; "ERROR"].

Definition setSelectValue (v : string) (s : Screen) : Screen :=
  let v' := if existsb (String.eqb v) selectOptions then v else "" in
  mkScreen (this s)
    (mkDocument (logsPanel (document s)) (Some v') (nextNodeId (document s))).

(** [document.createElement]: a fresh identity. *)
Definition freshId (s : Screen) : nat * Screen :=
  (nextNodeId (document s),
   mkScreen (this s)
     (mkDocument (logsPanel (document s)) (logLevelSelect (document s))
        (S (nextNodeId (document s))))).

Definition createLogElement (log : LogEntry) (s : Screen) : Node * Screen :=
  let '(i, s) := freshId s in (LogElement i log, s).

(** The page after [render()] has been inserted: the panel holds the
    empty-state message and the select shows WARNING. *)
Definition render : Document :=
  mkDocument (Some [EmptyMessage 0]) (Some "WARNING") 1.

Definition new : Self := mkSelf 0 "".

Definition fullRender (logs : list LogEntry) (minLevel : string) (s : Screen) : Screen :=
  let s := setChildren [] s in
  let s := setLastRenderedCount 0 s in
  let filteredLogs := filterLogsByLevel logs minLevel in
  if Nat.eqb (length filteredLogs) 0 then
    let '(i, s) := freshId s in
    let s := setChildren [EmptyMessage i] s in
    setLastRenderedCount (length logs) s
  else
    let '(fragment, s) :=
      fold_left (fun '(fragment, s) log =>
                   let '(logElement, s) := createLogElement log s in
                   (fragment ++ [logElement], s))
                filteredLogs ([], s) in
    let s := setChildren (children s ++ fragment) s in
    setLastRenderedCount (length logs) s.

Definition appendLogs (logs : list LogEntry) (minLevel : string) (s : Screen) : Screen :=
  let s := setChildren (removeFirst (matchesClass "log-empty") (children s)) s in
  let newLogs := drop (lastRenderedCount (this s)) logs in
  let '(fragment, hasNewVisibleLogs, s) :=
    fold_left (fun '(fragment, hasNewVisibleLogs, s) log =>
                 if shouldShowLog log minLevel then
                   let '(logElement, s) := createLogElement log s in
                   (fragment ++ [logElement], true, s)
                 else (fragment, hasNewVisibleLogs, s))
              newLogs ([], false, s) in
  let s := if hasNewVisibleLogs : bool then setChildren (children s ++ fragment) s else s in
  setLastRenderedCount (length logs) s.

(** [if (logLevelSelect && logLevelSelect.value !== selectedLogLevel) ...] *)
Definition syncSelect (selectedLogLevel : string) (s : Screen) : Screen :=
  match logLevelSelect (document s) with
  | Some v => if negb (String.eqb v selectedLogLevel)
              then setSelectValue selectedLogLevel s else s
  | None => s
  end.

Definition update (logs : list LogEntry) (selectedLogLevel : string) (s : Screen) : Screen :=
  match logsPanel (document s) with
  | None => s
  | Some _ =>
      let s := syncSelect selectedLogLevel s in
      let needsFullRender :=
        negb (String.eqb selectedLogLevel (lastLogLevel (this s)))
        || Nat.ltb (length logs) (lastRenderedCount (this s)) in
      let s := setLastLogLevel selectedLogLevel s in
      if needsFullRender then fullRender logs selectedLogLevel s
      else if Nat.ltb (lastRenderedCount (this s)) (length logs)
           then appendLogs logs selectedLogLevel s
           else s
  end.

(** The click handler of the Clear button installed by [attachListeners]:
    [onClear] is the store's [clearLogs], whose notification reaches
    [update] with the emptied log before the counter is reset. *)
Definition clearClick (selectedLogLevel : string) (s : Screen) : Screen :=
  setLastRenderedCount 0 (update [] selectedLogLevel s).

End LogPanel.

(** ** AppState: the observable store *)

Module AppState.

(** The public state properties of the class. *)
Record Fields := mkFields {
  selectedPath : option string;
  isProcessing : bool;
  logs : list LogEntry;
  processingResult : option ProcessingResult;
  selectedLogLevel : string;
  progressCurrent : Z;
  progressTotal : Z;
  currentTaskCategory : string;
  statusMessage : string
}.

(** Property initialisers of the class. *)
Definition initialFields : Fields :=
  mkFields None false [] None "WARNING" 0 0 "" "".

(** A listener is a function object; [l !== listener] compares identities. *)
Abbreviation Listener := nat (only parsing).

(** A reference to an array object. *)
Abbreviation ArrayRef := nat (only parsing).

(** What the body of a listener may do to the subscription list: call
    [subscribe] on a function, or call the closure a [subscribe] returned.
    (The shell's own listener, [updateUI(); updateComponents()], does
    neither: it only reads the fields.) *)
Inductive Action :=
  | Subscribe (listener : Listener)
  | Unsubscribe (listener : Listener).

(** Observable steps of a run, oldest first. *)
Inductive Event :=
  | Notified (snapshot : Fields)      (* [notify()] entered; the fields then *)
  | Called (listener : Listener).     (* a listener invoked by [forEach] *)

Record World := mkWorld {
  fields : Fields;
  listeners : ArrayRef;                 (* [this.listeners] *)
  arrays : list (list Listener);        (* the array objects, by reference *)
  callbacks : Listener -> list Action;  (* the body of each function object *)
  clock : nat -> string;                (* [new Date().toISOString()], per read *)
  clockReads : nat;
  trace : list Event
}.

Definition new (callbacks : Listener -> list Action) (clock : nat -> string) : World :=
  mkWorld initialFields 0 [[]] callbacks clock 0 [].

Definition setFields (f : Fields) (w : World) : World :=
  mkWorld f (listeners w) (arrays w) (callbacks w) (clock w) (clockReads w) (trace w).

Definition emit (e : Event) (w : World) : World :=
  mkWorld (fields w) (listeners w) (arrays w) (callbacks w) (clock w) (clockReads w)
    (trace w ++ [e]).

(** The array [this.listeners] refers to. *)
Definition listenerArray (w : World) : list Listener :=
  default [] (arrays w !! listeners w).

(** [this.listeners.push(listener)]: the array object is extended in place. *)
Definition subscribe (listener : Listener) (w : World) : World :=
  mkWorld (fields w) (listeners w)
    (alter (fun a => a ++ [listener]) (listeners w) (arrays w))
    (callbacks w) (clock w) (clockReads w) (trace w).

(** The closure returned by [subscribe(listener)]:
    [this.listeners = this.listeners.filter((l) => l !== listener)].
    [filter] allocates a new array; the old one is left as it was. *)
Definition unsubscribe (listener : Listener) (w : World) : World :=
  let kept := List.filter (fun l => negb (Nat.eqb l listener)) (listenerArray w) in
  mkWorld (fields w) (length (arrays w)) (arrays w ++ [kept])
    (callbacks w) (clock w) (clockReads w) (trace w).

Definition runAction (w : World) (a : Action) : World :=
  match a with
  | Subscribe l => subscribe l w
  | Unsubscribe l => unsubscribe l w
  end.

(** Invoking a function object runs its body. *)
Definition call (listener : Listener) (w : World) : World :=
  fold_left runAction (callbacks w listener) (emit (Called listener) w).

(** [Array.prototype.forEach] on the array object [O]: the length is read
    once, before the first call; each index below it is then read from the
    array as it is at that moment. *)
Fixpoint forEach (O : ArrayRef) (k remaining : nat) (w : World) : World :=
  match remaining with
  | 0 => w
  | S remaining' =>
      let w :=
        match arrays w !! O ≫= (fun a => a !! k) with
        | Some listener => call listener w
        | None => w
        end in
      forEach O (S k) remaining' w
  end.

Definition notify (w : World) : World :=
  let O := listeners w in
  let len := length (listenerArray w) in
  forEach O 0 len (emit (Notified (fields w)) w).

(** *** State mutation methods *)

Definition setSelectedPath (path : option string) (w : World) : World :=
  let f := fields w in
  notify (setFields
    (mkFields path (isProcessing f) (logs f) (processingResult f) (selectedLogLevel f)
       (progressCurrent f) (progressTotal f) (currentTaskCategory f) (statusMessage f)) w).

Definition setProcessing (b : bool) (w : World) : World :=
  let f := fields w in
  notify (setFields
    (mkFields (selectedPath f) b (logs f) (processingResult f) (selectedLogLevel f)
       (progressCurrent f) (progressTotal f) (currentTaskCategory f) (statusMessage f)) w).

Definition setProcessingResult (result : option ProcessingResult) (w : World) : World :=
  let f := fields w in
  notify (setFields
    (mkFields (selectedPath f) (isProcessing f) (logs f) result (selectedLogLevel f)
       (progressCurrent f) (progressTotal f) (currentTaskCategory f) (statusMessage f)) w).

Definition setSelectedLogLevel (lvl : string) (w : World) : World :=
  let f := fields w in
  notify (setFields
    (mkFields (selectedPath f) (isProcessing f) (logs f) (processingResult f) lvl
       (progressCurrent f) (progressTotal f) (currentTaskCategory f) (statusMessage f)) w).

Definition updateProgress (current total : Z) (taskCategory : string) (w : World) : World :=
  let f := fields w in
  notify (setFields
    (mkFields (selectedPath f) (isProcessing f) (logs f) (processingResult f)
       (selectedLogLevel f) current total taskCategory (statusMessage f)) w).

Definition setStatusMessage (msg : string) (w : World) : World :=
  let f := fields w in
  notify (setFields
    (mkFields (selectedPath f) (isProcessing f) (logs f) (processingResult f)
       (selectedLogLevel f) (progressCurrent f) (progressTotal f)
       (currentTaskCategory f) msg) w).

(** [new Date().toISOString()] *)
Definition now (w : World) : string * World :=
  (clock w (clockReads w),
   mkWorld (fields w) (listeners w) (arrays w) (callbacks w) (clock w)
     (S (clockReads w)) (trace w)).

Definition addLog (lvl msg : string) (w : World) : World :=
  let '(timestamp, w) := now w in
  let entry := mkLogEntry lvl msg timestamp in
  let f := fields w in
  notify (setFields
    (mkFields (selectedPath f) (isProcessing f) (logs f ++ [entry]) (processingResult f)
       (selectedLogLevel f) (progressCurrent f) (progressTotal f)
       (currentTaskCategory f) (statusMessage f)) w).

Definition clearLogs (w : World) : World :=
  let f := fields w in
  notify (setFields
    (mkFields (selectedPath f) (isProcessing f) [] (processingResult f)
       (selectedLogLevel f) (progressCurrent f) (progressTotal f)
       (currentTaskCategory f) (statusMessage f)) w).

Definition reset (w : World) : World :=
  notify (setFields (mkFields None false [] None "WARNING" 0 0 "" "") w).

(** The mutation methods as data: a call with its arguments. *)
Inductive Mutation :=
  | SetSelectedPath (path : option string)
  | SetProcessing (b : bool)
  | SetProcessingResult (result : option ProcessingResult)
  | SetSelectedLogLevel (lvl : string)
  | UpdateProgress (current total : Z) (taskCategory : string)
  | SetStatusMessage (msg : string)
  | AddLog (lvl msg : string)
  | ClearLogs
  | Reset.

Definition mutate (w : World) (m : Mutation) : World :=
  match m with
  | SetSelectedPath path => setSelectedPath path w
  | SetProcessing b => setProcessing b w
  | SetProcessingResult result => setProcessingResult result w
  | SetSelectedLogLevel lvl => setSelectedLogLevel lvl w
  | UpdateProgress current total taskCategory => updateProgress current total taskCategory w
  | SetStatusMessage msg => setStatusMessage msg w
  | AddLog lvl msg => addLog lvl msg w
  | ClearLogs => clearLogs w
  | Reset => reset w
  end.

End AppState.

(** ** EPTAppShell: the handlers that drive the store *)

Module EPTAppShell.
Import AppState.

(** How a promise returned by [invoke] settles; a rejection is kept as the
    text [`${error}`] interpolates. *)
Inductive Settled (A : Type) :=
  | Resolved (value : A)
  | Rejected (error : string).
Arguments Resolved {A} value.
Arguments Rejected {A} error.

(** The Tauri commands the handlers await. *)
Record Backend := mkBackend {
  handle_user_input : string -> Settled string;
  start_processing : option string -> Settled ProcessingResult
}.

(** Truthiness of a [string | null] and of a [string]. *)
Definition truthy (s : string) : bool := negb (String.eqb s "").

Definition truthyOpt (s : option string) : bool :=
  match s with
  | Some s => truthy s
  | None => false
  end.

(** While a handler is suspended at an [await], other handlers may run
    and call mutation methods of the store. *)
Definition interleave (during : list Mutation) (w : World) : World :=
  fold_left mutate during w.

Definition newline : string := String (ascii_of_nat 10) EmptyString.

Definition handleUserInput (backend : Backend) (during : list Mutation)
    (path : string) (w : World) : World :=
  let settled := handle_user_input backend path in
  let w := interleave during w in
  match settled with
  | Resolved normalizedPath =>
      let w := setSelectedPath (Some normalizedPath) w in
      addLog "INFO" ("Selected: " +:+ normalizedPath) w
  | Rejected error =>
      addLog "ERROR" ("Invalid path: " +:+ error) w
  end.

(** The synchronous part of [startProcessing], up to the [await]. *)
Definition startProcessing_begin (w : World) : World :=
  let w := setProcessing true w in
  let w := setProcessingResult None w in
  let w := updateProgress 0 0 "" w in
  addLog "INFO" "Starting processing..." w.

(** The [try] body after the [await], the [catch] and the [finally]. *)
Definition startProcessing_settle (settled : Settled ProcessingResult) (w : World) : World :=
  let w :=
    match settled with
    | Resolved result =>
        let w := setProcessingResult (Some result) w in
        let processedCount :=
          length (List.filter (fun e => String.eqb (processed e) "Yes") (entries result)) in
        let w := addLog "INFO"
                   ("Processing complete. Found " +:+ pretty (length (entries result))
                    +:+ " files, " +:+ pretty processedCount +:+ " processed.") w in
        let statusMessage :=
          "Processed " +:+ pretty processedCount +:+ " of "
            +:+ pretty (length (entries result)) +:+ " files." +:+ newline +:+ newline
            +:+ "<strong>Staging Folder:</strong> " +:+ staging_path result +:+ newline
            +:+ "<strong>LLM Output Folder:</strong> " +:+ llm_output_path result +:+ newline
            +:+ "<strong>Report File:</strong> " +:+ report_path result in
        setStatusMessage statusMessage w
    | Rejected error =>
        let w := addLog "ERROR" ("Processing failed: " +:+ error) w in
        setStatusMessage ("Error: " +:+ error) w
    end in
  setProcessing false w.

Definition startProcessing (backend : Backend) (during : list Mutation) (w : World) : World :=
  if negb (truthyOpt (selectedPath (fields w))) || isProcessing (fields w) then w
  else
    let w := startProcessing_begin w in
    let settled := start_processing backend (selectedPath (fields w)) in
    let w := interleave during w in
    startProcessing_settle settled w.

(** *** The drop handler of the drop zone *)

(** A [File] as the handler reads it: the non-standard [path], then
    [webkitRelativePath], then [name]. *)
Record File := mkFile {
  path : option string;
  webkitRelativePath : string;
  name : string
}.

Record DataTransferItem := mkItem {
  kind : string;
  getAsFile : option File
}.

Record DataTransfer := mkDataTransfer {
  files : list File;
  items : list DataTransferItem
}.

Record DragEvent := mkDragEvent {
  dataTransfer : option DataTransfer
}.

(** The [for] loop over [items]: the path of the first file-kind item
    whose file has a truthy [path]. *)
Fixpoint scanItems (items : list DataTransferItem) : option string :=
  match items with
  | [] => None
  | item :: rest =>
      if String.eqb (kind item) "file" then
        match getAsFile item with
        | Some file => if truthyOpt (path file) then path file else scanItems rest
        | None => scanItems rest
        end
      else scanItems rest
  end.

(** The fallback after the file list gave no path. *)
Definition dropItems (backend : Backend) (during : list Mutation)
    (e : DragEvent) (w : World) : World :=
  match dataTransfer e ≫= (fun dt => scanItems (items dt)) with
  | Some p =>
      let w := addLog "INFO" ("Processing dropped item: " +:+ p) w in
      handleUserInput backend during p w
  | None =>
      addLog "ERROR" "No files found in drop event or could not extract path" w
  end.

(** The handler proper.  Nothing in its [try] block throws on these inputs
    ([handleUserInput] catches the rejection of its own [invoke]), so the
    [catch] clause of the handler is never entered. *)
Definition onDrop (backend : Backend) (during : list Mutation)
    (e : DragEvent) (w : World) : World :=
  match files <$> dataTransfer e with
  | Some (file :: _) =>
      let '(p, w) :=
        if truthyOpt (path file) then (path file, w)
        else if truthy (webkitRelativePath file) then (Some (webkitRelativePath file), w)
        else if truthy (name file) then
          (None,
           addLog "WARN"
             ("File dropped but no path found. File name: " +:+ name file
              +:+ ". This may not work for folders.") w)
        else (None, w) in
      match p with
      | Some p' =>
          if truthy p' then
            let w := addLog "INFO" ("Processing dropped item: " +:+ p') w in
            handleUserInput backend during p' w
          else dropItems backend during e w
      | None => dropItems backend during e w
      end
  | _ => dropItems backend during e w
  end.

(** *** The dialog buttons *)

(** What [open({ multiple: false, ... })] resolves to. *)
Inductive Selection :=
  | NoSelection                          (* [null] *)
  | OnePath (selected : string)
  | PathList (selected : list string).

(** The click handlers of the two Browse buttons; they differ in the
    dialog they open and in the text of the failure entry.  [whileOpen] are
    the store calls of other handlers while the dialog is open. *)
Definition browse (failure : string) (whileOpen : list Mutation)
    (dialog : Settled Selection) (backend : Backend) (during : list Mutation)
    (w : World) : World :=
  let w := interleave whileOpen w in
  match dialog with
  | Resolved (OnePath selected) =>
      if truthy selected then handleUserInput backend during selected w else w
  | Resolved (PathList (first :: _)) => handleUserInput backend during first w
  | Resolved (PathList []) => w
  | Resolved NoSelection => w
  | Rejected error => addLog "ERROR" (failure +:+ error) w
  end.

Definition browseClick := browse "Failed to open directory dialog: ".
Definition browseZipClick := browse "Failed to open file dialog: ".

(** *** The native drag-and-drop listener ([setupTauriDragDrop]) *)

Inductive DragDropEvent :=
  | DragEnter
  | DragOver
  | DragLeave
  | DragDrop (paths : list string).

(** [dragOver] is whether the drop zone carries the class [drag-over];
    [None] when the page has no drop zone. *)
Definition onDragDropEvent (backend : Backend) (during : list Mutation)
    (event : DragDropEvent) (dragOver : option bool) (w : World) : option bool * World :=
  match event with
  | DragEnter | DragOver => ((λ _, true) <$> dragOver, w)
  | DragLeave => ((λ _, false) <$> dragOver, w)
  | DragDrop paths =>
      let dragOver := (λ _, false) <$> dragOver in
      match paths with
      | path :: _ =>
          let w := addLog "INFO" ("Processing dropped item: " +:+ path) w in
          (dragOver, handleUserInput backend during path w)
      | [] => (dragOver, addLog "ERROR" "No paths found in drop event" w)
      end
  end.

(** *** [updateUI] *)

Record GoButton := mkGoButton {
  goDisabled : bool;
  goDisplay : option string            (* [style.display]; [None] when unset *)
}.

(** The elements [updateUI] looks up, each absent or present; for the
    elements it only shows and hides, the value is their [style.display]. *)
Record ShellPage := mkShellPage {
  goButton : option GoButton;
  startOverButton : option (option string);
  selectedPathDisplay : option (option string);
  selectedPathText : option string;    (* [textContent] *)
  dropZone : option (option string);
  resultActions : option (option string)
}.

(** The page as [initializeUI] writes it. *)
Definition initialPage : ShellPage :=
  mkShellPage (Some (mkGoButton true None)) (Some (Some "none")) (Some (Some "none"))
    (Some "") (Some None) (Some (Some "none")).

(** Truthiness of an object reference. *)
Definition nonNull {A : Type} (x : option A) : bool :=
  match x with
  | Some _ => true
  | None => false
  end.

Definition updateUI (f : Fields) (p : ShellPage) : ShellPage :=
  let resultShown :=
    if nonNull (processingResult f) && negb (isProcessing f) then "flex" else "none" in
  match selectedPath f with
  | Some selected =>
      if truthy selected then
        mkShellPage
          ((λ _, mkGoButton (isProcessing f)
                   (Some (if nonNull (processingResult f) then "none" else "block")))
             <$> goButton p)
          ((λ _, Some "block") <$> startOverButton p)
          ((λ _, Some "flex") <$> selectedPathDisplay p)
          ((λ _, selected) <$> selectedPathText p)
          ((λ _, Some "none") <$> dropZone p)
          ((λ _, Some resultShown) <$> resultActions p)
      else
        mkShellPage
          ((λ _, mkGoButton true (Some "block")) <$> goButton p)
          ((λ _, Some "none") <$> startOverButton p)
          ((λ _, Some "none") <$> selectedPathDisplay p)
          (selectedPathText p)
          ((λ _, None) <$> dropZone p)
          ((λ _, Some resultShown) <$> resultActions p)
  | None =>
      mkShellPage
        ((λ _, mkGoButton true (Some "block")) <$> goButton p)
        ((λ _, Some "none") <$> startOverButton p)
        ((λ _, Some "none") <$> selectedPathDisplay p)
        (selectedPathText p)
        ((λ _, None) <$> dropZone p)
        ((λ _, Some resultShown) <$> resultActions p)
  end.

(** The click handler of the GO button. *)
Definition goClick (backend : Backend) (during : list Mutation) (w : World) : World :=
  if truthyOpt (selectedPath (fields w)) && negb (isProcessing (fields w))
  then startProcessing backend during w else w.

(** The listeners for the backend's [log-entry] and [progress-update]
    events; the timestamp of the payload is not used. *)
Definition onLogEntry (payload : LogEntry) (w : World) : World :=
  addLog (level payload) (message payload) w.

Definition onProgressUpdate (current total : Z) (task_category : string) (w : World) : World :=
  updateProgress current total task_category w.

End EPTAppShell.

(** ** ProgressPanel *)

Module ProgressPanel.

(** The number operations of the platform that [update] uses; the store
    keeps the counters as integers. *)
Record Numbers := mkNumbers {
  roundedPercent : Z -> Z -> Z;      (* [Math.round((current / total) * 100)] *)
  numberText : Z -> string           (* [`${n}`] *)
}.

Record StatusMessage := mkStatusMessage {
  innerHTML : string;
  statusDisplay : option string;
  whiteSpace : option string
}.

Record BarFill := mkBarFill {
  width : string;
  opacity : option string;
  indeterminate : bool               (* the class [indeterminate] *)
}.

(** The elements [update] looks up, each absent or present. *)
Record Page := mkPage {
  progressSection : option (option string);   (* [style.display] *)
  statusMessageEl : option StatusMessage;
  progressBarFill : option BarFill;
  progressText : option string;               (* [textContent] *)
  taskCategoryElement : option string         (* [textContent] *)
}.

(** The markup [render()] returns. *)
Definition render : Page :=
  mkPage (Some (Some "none")) (Some (mkStatusMessage "" None None))
    (Some (mkBarFill "0%" None false)) (Some "0 / 0") (Some "").

(** [fill.style.width = `${percentage}%`].  A width is not negative: the
    style declaration drops the assignment of a negative percentage and
    keeps the width it had.  (The other values [update] assigns to a style,
    ["block"], ["none"], ["pre-line"], ["1"], ["0.6"] and ["100%"], are
    valid for their properties.) *)
Definition setWidthPercent (js : Numbers) (percentage : Z) (fill : BarFill) : string :=
  if Z.leb 0 percentage then numberText js percentage +:+ "%" else width fill.

Definition update (js : Numbers) (current total : Z) (taskCategory : string)
    (isProcessing : bool) (statusMessage : string) (p : Page) : Page :=
  let section :=
    (λ _, Some (if isProcessing then "block" else "none")) <$> progressSection p in
  let status :=
    (λ _, mkStatusMessage statusMessage
            (Some (if EPTAppShell.truthy statusMessage then "block" else "none"))
            (Some "pre-line"))
      <$> statusMessageEl p in
  if negb isProcessing then
    mkPage section status (progressBarFill p) (progressText p) (taskCategoryElement p)
  else
    let fill :=
      (λ fill, if Z.ltb 0 total then
                 let percentage := Z.min 100 (roundedPercent js current total) in
                 mkBarFill (setWidthPercent js percentage fill) (Some "1") false
               else mkBarFill "100%" (Some "0.6") true)
        <$> progressBarFill p in
    let text :=
      (λ _, if Z.ltb 0 total
            then numberText js current +:+ " / " +:+ numberText js total
            else "...")
        <$> progressText p in
    let category := (λ _, taskCategory) <$> taskCategoryElement p in
    mkPage section status fill text category.

(** [updateComponents] hands the panel the fields of the store. *)
Definition updateFrom (js : Numbers) (f : AppState.Fields) (p : Page) : Page :=
  update js (AppState.progressCurrent f) (AppState.progressTotal f)
    (AppState.currentTaskCategory f) (AppState.isProcessing f)
    (AppState.statusMessage f) p.

End ProgressPanel.

(** ** FileConversionView (the task view of the dashboard shell) *)

Module FileConversionView.
Import EPTAppShell.

(** What the view asks of the platform. *)
Record Platform := mkPlatform {
  toLocaleTimeString : string -> string;  (* [new Date(s).toLocaleTimeString()] *)
  nowLocal : nat -> string;               (* [new Date().toLocaleTimeString()], per read *)
  trim : string -> string                 (* [String.prototype.trim] *)
}.

(** The closure variables of [renderFileConversionView] and the elements
    it looked up, each absent or present.  [invoked] lists the input paths
    handed to [start_file_conversion] so far.  The calls of the Start
    handler that are suspended are part of the state: those at
    [await setupLogListener()] by their [value], in the order they were
    suspended, and the number of those at [await invoke(...)]. *)
Record View := mkView {
  allLogs : list LogEntry;
  showDebugLogs : bool;
  logPanel : option string;        (* [textContent] *)
  inputField : option string;      (* [value] *)
  startButton : option bool;       (* [disabled] *)
  clockReads : nat;
  invoked : list string;
  listenerSettled : bool;          (* [logListenerPromise] has settled *)
  waiting : list string;
  converting : nat
}.

(** The view right after it has been rendered: [setupLogListener()] has
    been called and its promise is pending. *)
Definition render : View :=
  mkView [] false (Some "") (Some "") (Some false) 0 [] false [] 0.

(** [s.includes(needle)] *)
Fixpoint includes (needle s : string) : bool :=
  String.prefix needle s
  || match s with
     | EmptyString => false
     | String _ rest => includes needle rest
     end.

(** [s.replace(pattern, replacement)] for a string pattern: the first
    occurrence only. *)
Fixpoint replaceFirst (pattern replacement s : string) : string :=
  if String.prefix pattern s then
    replacement +:+ String.substring (String.length pattern)
                      (String.length s - String.length pattern) s
  else
    match s with
    | EmptyString => EmptyString
    | String c rest => String c (replaceFirst pattern replacement rest)
    end.

Definition formatTimestamp (js : Platform) (timestamp : string) : string :=
  if includes "UTC" timestamp
  then toLocaleTimeString js (replaceFirst " UTC" "Z" timestamp)
  else timestamp.

Definition levelPrefix (lvl : string) : string :=
  if String.eqb lvl "ERROR" then "❌"
  else if String.eqb lvl "WARNING" then "⚠️"
  else if String.eqb lvl "DEBUG" then "🔍"
  else "ℹ️".

Definition formatLine (js : Platform) (log : LogEntry) : string :=
  "[" +:+ formatTimestamp js (timestamp log) +:+ "] " +:+ levelPrefix (level log)
    +:+ " " +:+ message log.

(** [lines.join(sep)] *)
Fixpoint join (sep : string) (lines : list string) : string :=
  match lines with
  | [] => ""
  | [line] => line
  | line :: rest => line +:+ sep +:+ join sep rest
  end.

Definition isStandardLevel (log : LogEntry) : bool :=
  String.eqb (level log) "INFO" || String.eqb (level log) "WARNING"
  || String.eqb (level log) "ERROR".

Definition logsToShow (showDebug : bool) (logs : list LogEntry) : list LogEntry :=
  if showDebug then logs else List.filter isStandardLevel logs.

Definition displayText (js : Platform) (showDebug : bool) (logs : list LogEntry) : string :=
  join newline (map (formatLine js) (logsToShow showDebug logs)).

Definition updateLogDisplay (js : Platform) (v : View) : View :=
  match logPanel v with
  | None => v
  | Some _ =>
      mkView (allLogs v) (showDebugLogs v)
        (Some (displayText js (showDebugLogs v) (allLogs v)))
        (inputField v) (startButton v) (clockReads v) (invoked v)
        (listenerSettled v) (waiting v) (converting v)
  end.

Definition pushLog (entry : LogEntry) (v : View) : View :=
  mkView (allLogs v ++ [entry]) (showDebugLogs v) (logPanel v) (inputField v)
    (startButton v) (clockReads v) (invoked v)
    (listenerSettled v) (waiting v) (converting v).

(** [appendLog(message, level = "INFO")] *)
Definition appendLog (js : Platform) (msg lvl : string) (v : View) : View :=
  match logPanel v with
  | None => v
  | Some _ =>
      let entry := mkLogEntry lvl msg (nowLocal js (clockReads v)) in
      let v := mkView (allLogs v) (showDebugLogs v) (logPanel v) (inputField v)
                 (startButton v) (S (clockReads v)) (invoked v)
                 (listenerSettled v) (waiting v) (converting v) in
      updateLogDisplay js (pushLog entry v)
  end.

Definition setInput (value : string) (v : View) : View :=
  mkView (allLogs v) (showDebugLogs v) (logPanel v) ((λ _, value) <$> inputField v)
    (startButton v) (clockReads v) (invoked v)
    (listenerSettled v) (waiting v) (converting v).

Definition setDisabled (disabled : bool) (v : View) : View :=
  mkView (allLogs v) (showDebugLogs v) (logPanel v) (inputField v)
    ((λ _, disabled) <$> startButton v) (clockReads v) (invoked v)
    (listenerSettled v) (waiting v) (converting v).

(** The handlers that run to their end without waiting for the view's own
    promises: the [log-entry] listener, Clear, the debug checkbox, and the
    Browse handlers once their dialog has settled. *)
Inductive Event :=
  | BackendLog (entry : LogEntry)                 (* a [log-entry] event *)
  | ClearClick
  | DebugChange (checked : bool)
  | FolderPicked (dialog : Settled Selection)     (* Browse folder, settled *)
  | FilePicked (dialog : Settled Selection).      (* Browse file, settled *)

Definition picked (js : Platform) (failure : string) (dialog : Settled Selection)
    (v : View) : View :=
  match dialog with
  | Resolved (OnePath selected) => if truthy selected then setInput selected v else v
  | Resolved (PathList (first :: _)) => setInput first v
  | Resolved (PathList []) => v
  | Resolved NoSelection => v
  | Rejected error => appendLog js (failure +:+ error) "INFO" v
  end.

Definition handle (js : Platform) (v : View) (e : Event) : View :=
  match e with
  | BackendLog entry => updateLogDisplay js (pushLog entry v)
  | ClearClick =>
      mkView [] (showDebugLogs v) ((λ _, "") <$> logPanel v) (inputField v)
        (startButton v) (clockReads v) (invoked v)
        (listenerSettled v) (waiting v) (converting v)
  | DebugChange checked =>
      updateLogDisplay js
        (mkView (allLogs v) checked (logPanel v) (inputField v) (startButton v)
           (clockReads v) (invoked v) (listenerSettled v) (waiting v) (converting v))
  | FolderPicked dialog => picked js "Failed to open folder dialog: " dialog v
  | FilePicked dialog => picked js "Failed to open file dialog: " dialog v
  end.

(** *** The Start handler, from one suspension point to the next *)

(** From [await setupLogListener()] to [await invoke(...)]: the button is
    disabled and the backend is called with the [value] read at the click. *)
Definition startConversion (value : string) (v : View) : View :=
  let v := setDisabled true v in
  mkView (allLogs v) (showDebugLogs v) (logPanel v) (inputField v)
    (startButton v) (clockReads v) (invoked v ++ [value])
    (listenerSettled v) (waiting v) (S (converting v)).

(** After [await invoke(...)]: the [catch] clause and the [finally]. *)
Definition endConversion (js : Platform) (conversion : Settled unit) (v : View) : View :=
  let v :=
    match conversion with
    | Resolved _ => v
    | Rejected error => appendLog js ("Conversion failed: " +:+ error) "ERROR" v
    end in
  let v := setDisabled false v in
  mkView (allLogs v) (showDebugLogs v) (logPanel v) (inputField v)
    (startButton v) (clockReads v) (invoked v)
    (listenerSettled v) (waiting v) (pred (converting v)).

(** The click handler of the Start button, up to its first suspension.
    The button is disabled only after [await setupLogListener()].  When
    [logListenerPromise] has settled, the handler resumes before any other
    event is handled; while it is pending, the handler stays suspended and
    the page goes on handling events, clicks on Start among them. *)
Definition startClick (js : Platform) (v : View) : View :=
  match inputField v with
  | None => v
  | Some raw =>
      let value := trim js raw in
      if negb (truthy value) then
        appendLog js "Please provide an input path before starting conversion." "INFO" v
      else if listenerSettled v then startConversion value v
      else
        mkView (allLogs v) (showDebugLogs v) (logPanel v) (inputField v)
          (startButton v) (clockReads v) (invoked v)
          (listenerSettled v) (waiting v ++ [value]) (converting v)
  end.

(** [logListenerPromise] settles, once: a rejection of [listen] is logged
    by the [catch] callback, and the promise is fulfilled either way; then
    the Start handlers that were waiting for it resume, in the order they
    were suspended, each up to its [await invoke(...)]. *)
Definition listenSettled (js : Platform) (registration : Settled unit) (v : View) : View :=
  if listenerSettled v then v
  else
    let v :=
      match registration with
      | Resolved _ => v
      | Rejected error =>
          appendLog js ("Failed to set up log listener: " +:+ error) "ERROR" v
      end in
    fold_left (λ v value, startConversion value v) (waiting v)
      (mkView (allLogs v) (showDebugLogs v) (logPanel v) (inputField v)
         (startButton v) (clockReads v) (invoked v) true [] (converting v)).

(** Everything that can happen to a view.  The Start handler is installed
    only when the button exists, and the page dispatches a click only to a
    button that is enabled; [ConversionSettled] is the backend call of one
    suspended handler settling. *)
Inductive Step :=
  | Handled (e : Event)
  | StartClicked
  | ListenSettled (registration : Settled unit)
  | ConversionSettled (conversion : Settled unit).

Definition step (js : Platform) (v : View) (s : Step) : View :=
  match s with
  | Handled e => handle js v e
  | StartClicked =>
      match startButton v with
      | Some false => startClick js v
      | _ => v
      end
  | ListenSettled registration => listenSettled js registration v
  | ConversionSettled conversion =>
      match converting v with
      | 0 => v
      | S _ => endConversion js conversion v
      end
  end.

(** The panel shows the stored entries under the current debug setting. *)
Definition upToDate (js : Platform) (v : View) : Prop :=
  logPanel v = Some (displayText js (showDebugLogs v) (allLogs v)).

(** The path a click on Start asks the backend to convert: the trimmed
    input, when the view has the button, enabled, and the field, and the
    input is not blank. *)
Definition requested (js : Platform) (v : View) : option string :=
  match startButton v, inputField v with
  | Some false, Some raw => if truthy (trim js raw) then Some (trim js raw) else None
  | _, _ => None
  end.

(** The paths requested by the clicks on Start of a history, in click
    order. *)
Fixpoint requests (js : Platform) (steps : list Step) (v : View) : list string :=
  match steps with
  | [] => []
  | s :: rest =>
      match s, requested js v with
      | StartClicked, Some value => value :: requests js rest (step js v s)
      | _, _ => requests js rest (step js v s)
      end
  end.

(** The part of a view that the log functions and the handlers of
    [Event] never write. *)
Definition control (v : View) : option bool * list string * bool * list string * nat :=
  (startButton v, invoked v, listenerSettled v, waiting v, converting v).

(** What holds of the Start button and of the suspended handlers
    throughout: the button exists; no handler waits for a promise that has
    settled; no blank path has been handed to the backend or is about to
    be; the button is enabled when no backend call is awaited; and every
    awaited call has been made. *)
Definition orderly (v : View) : Prop :=
  is_Some (startButton v)
  ∧ (listenerSettled v = true → waiting v = [])
  ∧ Forall (λ path, truthy path = true) (invoked v ++ waiting v)
  ∧ (converting v = 0 → startButton v = Some false)
  ∧ (converting v ≤ length (invoked v))%nat.

End FileConversionView.

(** ** Notions used to state the properties *)

Module Spec.
Import LogPanel AppState EPTAppShell.

(** The severity enumeration of the design, with its ranking
    ERROR < WARNING < INFO, and the level string of each severity. *)
Inductive Severity := ERROR | WARNING | INFO.

Definition severity_rank (sev : Severity) : nat :=
  match sev with
  | ERROR => 0
  | WARNING => 1
  | INFO => 2
  end.

Definition levelName (sev : Severity) : string :=
  match sev with
  | ERROR => "ERROR"
  | WARNING => "WARNING"
  | INFO => "INFO"
  end.

(** Log elements for [logs], created one after the other from identity [i]. *)
Fixpoint elementsFrom (i : nat) (logs : list LogEntry) : list Node :=
  match logs with
  | [] => []
  | log :: rest => LogElement i log :: elementsFrom (S i) rest
  end.

(** The entries a list of nodes displays, in order. *)
Fixpoint entriesOf (nodes : list Node) : list LogEntry :=
  match nodes with
  | [] => []
  | EmptyMessage _ :: rest => entriesOf rest
  | LogElement _ log :: rest => log :: entriesOf rest
  end.

Definition shown (s : Screen) : list LogEntry := entriesOf (children s).

Definition isEmptyMessage (n : Node) : bool :=
  match n with
  | EmptyMessage _ => true
  | LogElement _ _ => false
  end.

(** What a full render leaves in the panel: the elements of the admitted
    entries, or the empty-state message when there is none. *)
Definition fullView (i : nat) (admitted : list LogEntry) : list Node :=
  match admitted with
  | [] => [EmptyMessage i]
  | _ => elementsFrom i admitted
  end.

(** The panel is in step with its counter: when nothing has been counted
    as rendered, the panel holds the empty-state message. *)
Definition placeholderWhenEmpty (s : Screen) : Prop :=
  lastRenderedCount (this s) = 0 →
  ∃ i, logsPanel (document s) = Some [EmptyMessage i].

(** The screen with [n] more elements created. *)
Definition advance (n : nat) (s : Screen) : Screen :=
  mkScreen (this s)
    (mkDocument (logsPanel (document s)) (logLevelSelect (document s))
       (n + nextNodeId (document s))).

(** A freshly constructed panel on the page it rendered. *)
Definition freshScreen : Screen := mkScreen LogPanel.new render.

(** The field snapshots of the notifications in a trace, and the listeners
    called, both oldest first. *)
Fixpoint notifications (t : list Event) : list Fields :=
  match t with
  | [] => []
  | Notified f :: rest => f :: notifications rest
  | Called _ :: rest => notifications rest
  end.

Fixpoint calls (t : list Event) : list Listener :=
  match t with
  | [] => []
  | Notified _ :: rest => calls rest
  | Called l :: rest => l :: calls rest
  end.

(** What running listener bodies leaves alone, and what it may do to the
    array object [O]: extend it at the end, nothing else. *)
Record frames (O : ArrayRef) (a : list Listener) (w w' : World) : Prop := mkFrames {
  frames_fields : fields w' = fields w;
  frames_callbacks : callbacks w' = callbacks w;
  frames_clock : clock w' = clock w;
  frames_clockReads : clockReads w' = clockReads w;
  frames_array : ∃ ext, arrays w' !! O = Some (a ++ ext)
}.

(** The shell's listener ends in [updateComponents], which hands the
    current [logs] and [selectedLogLevel] to [LogPanel.update]; replaying
    the notifications of a trace gives the screen they leave. *)
Definition updateComponents (s : Screen) (f : Fields) : Screen :=
  LogPanel.update (logs f) (selectedLogLevel f) s.

Definition replay (t : list Event) (s : Screen) : Screen :=
  fold_left updateComponents (notifications t) s.

(** The setter calls that pass the value the field already has. *)
Definition redundantCalls (f : Fields) : list Mutation :=
  [ SetSelectedPath (selectedPath f);
    SetProcessing (isProcessing f);
    SetProcessingResult (processingResult f);
    SetSelectedLogLevel (selectedLogLevel f);
    UpdateProgress (progressCurrent f) (progressTotal f) (currentTaskCategory f);
    SetStatusMessage (statusMessage f) ].

(** The guard of [startProcessing] (and of the GO button). *)
Definition canStart (w : World) : Prop :=
  truthyOpt (selectedPath (fields w)) = true ∧ isProcessing (fields w) = false.

(** *** Further notions *)

(** A level whose log element does not carry the class [log-empty]. *)
Definition classSafe (lvl : string) : bool :=
  negb (matchesClass "log-empty" (LogElement 0 (mkLogEntry lvl "" ""))).

(** A log that grows by chunks, the panel being updated with the whole log
    after each chunk, under one threshold. *)
Fixpoint streamUpdates (lvl : string) (seen : list LogEntry)
    (chunks : list (list LogEntry)) (s : Screen) : Screen :=
  match chunks with
  | [] => s
  | chunk :: rest => streamUpdates lvl (seen ++ chunk) rest (update (seen ++ chunk) lvl s)
  end.

(** What can happen to a panel: an update with any arguments, or a click
    on Clear. *)
Inductive Interaction :=
  | Updated (logs : list LogEntry) (lvl : string)
  | ClearClicked (lvl : string).

Definition interact (s : Screen) (i : Interaction) : Screen :=
  match i with
  | Updated logs lvl => update logs lvl s
  | ClearClicked lvl => clearClick lvl s
  end.

(** The panel holds the empty-state message alone, or log elements only. *)
Definition tidy (nodes : list Node) : Prop :=
  (∃ i, nodes = [EmptyMessage i]) ∨ Forall (λ n, isEmptyMessage n = false) nodes.

(** A select that [syncSelect] has written needs no second write. *)
Definition settled (lvl : string) (select : option string) : Prop :=
  ∀ v, select = Some v →
       v = lvl ∨ (v = "" ∧ existsb (String.eqb lvl) selectOptions = false).

(** The store's reference to its listener array points to an array. *)
Definition wellFormed (w : World) : Prop := is_Some (arrays w !! listeners w).

(** The subscription list as a plain list: what an action does to it. *)
Definition applyAction (ls : list Listener) (a : Action) : list Listener :=
  match a with
  | Subscribe l => ls ++ [l]
  | Unsubscribe l => List.filter (λ x, negb (Nat.eqb x l)) ls
  end.

(** The bodies of the listeners [ls], in call order. *)
Definition bodies (w : World) (ls : list Listener) : list Action :=
  concat (map (callbacks w) ls).

(** The mutations that do not empty the log. *)
Definition keepsLog (m : Mutation) : bool :=
  match m with
  | ClearLogs | Reset => false
  | _ => true
  end.

(** The mutations whose log entry, if any, has a class-safe level. *)
Definition safeMutation (m : Mutation) : bool :=
  match m with
  | AddLog lvl _ => classSafe lvl
  | _ => true
  end.

(** A batch of [addLog] calls. *)
Definition addLogs (batch : list (string * string)) (w : World) : World :=
  fold_left (λ w '(lvl, msg), addLog lvl msg w) batch w.

(** The entries a batch produces when the clock has been read [n] times. *)
Fixpoint stamped (clock : nat → string) (n : nat) (batch : list (string * string))
    : list LogEntry :=
  match batch with
  | [] => []
  | (lvl, msg) :: rest => mkLogEntry lvl msg (clock n) :: stamped clock (S n) rest
  end.

(** The GO button can be clicked: it is on the page, shown and enabled. *)
Definition goClickable (p : ShellPage) : bool :=
  match goButton p with
  | Some b => negb (goDisabled b) && negb (bool_decide (goDisplay b = Some "none"))
  | None => false
  end.

(** The fields a drop or a dialog never writes. *)
Definition jobFields (f : Fields)
    : bool * option ProcessingResult * string * Z * Z * string * string :=
  (isProcessing f, processingResult f, selectedLogLevel f,
   progressCurrent f, progressTotal f, currentTaskCategory f, statusMessage f).

(** The fields after each of a list of mutations, in order. *)
Fixpoint snapshots (ms : list Mutation) (w : World) : list Fields :=
  match ms with
  | [] => []
  | m :: rest => fields (mutate w m) :: snapshots rest (mutate w m)
  end.

(** A panel in step with the fields of the store: it has counted the whole
    log and shows what its threshold admits of it. *)
Definition inStep (s : Screen) (f : Fields) : Prop :=
  is_Some (logsPanel (document s))
  ∧ lastRenderedCount (this s) = length (logs f)
  ∧ shown s = filterLogsByLevel (logs f) (lastLogLevel (this s))
  ∧ Forall (λ log, classSafe (level log) = true) (logs f).

(** Everything the shell's listener writes: the shell's own elements, the
    log panel and the progress panel. *)
Record Rendering := mkRendering {
  shellPage : ShellPage;
  logScreen : Screen;
  progressPage : ProgressPanel.Page
}.

(** The listener the shell subscribes in its constructor:
    [() => { this.updateUI(); this.updateComponents(); }]. *)
Definition onStateChange (js : ProgressPanel.Numbers) (f : Fields) (r : Rendering)
    : Rendering :=
  mkRendering (updateUI f (shellPage r))
    (LogPanel.update (logs f) (selectedLogLevel f) (logScreen r))
    (ProgressPanel.updateFrom js f (progressPage r)).

(** *** A run of the shell *)












End Spec.

(** * Properties *)

Import LogPanel AppState EPTAppShell Spec.

(** ** The element-creating loops *)

Lemma advance_0 s : advance 0 s = s.
Proof. by destruct s as [t [p v n]]. Qed.

Lemma advance_S n s : advance (S n) s = advance n (snd (freshId s)).
Proof.
  destruct s as [t [p v i]]; unfold advance; cbn.
  by rewrite Nat.add_succ_r.
Qed.

Lemma this_advance n s : this (advance n s) = this s.
Proof. done. Qed.

Lemma children_advance n s : children (advance n s) = children s.
Proof. done. Qed.

Lemma entriesOf_app a b : entriesOf (a ++ b) = entriesOf a ++ entriesOf b.
Proof.
  induction a as [|[i|i log] a IH]; cbn; [done | done | by rewrite IH].
Qed.

Lemma entriesOf_elementsFrom i logs : entriesOf (elementsFrom i logs) = logs.
Proof.
  revert i; induction logs as [|log logs IH]; intros i; cbn; [done|].
  by rewrite IH.
Qed.

Lemma length_elementsFrom i logs : length (elementsFrom i logs) = length logs.
Proof.
  revert i; induction logs as [|log logs IH]; intros i; cbn; [done|].
  by rewrite IH.
Qed.

(** The [forEach] of [fullRender] builds one element per entry. *)
Lemma fullRender_loop logs fragment s :
  fold_left (fun '(fragment, s) log =>
               let '(logElement, s) := createLogElement log s in
               (fragment ++ [logElement], s))
            logs (fragment, s)
  = (fragment ++ elementsFrom (nextNodeId (document s)) logs,
     advance (length logs) s).
Proof.
  revert fragment s; induction logs as [|log logs IH]; intros fragment s; cbn.
  - by rewrite app_nil_r, advance_0.
  - rewrite IH, advance_S. cbn. by rewrite <- app_assoc.
Qed.

(** The [forEach] of [appendLogs] builds one element per admitted entry. *)
Lemma appendLogs_loop minLevel newLogs fragment flag s :
  fold_left (fun '(fragment, hasNewVisibleLogs, s) log =>
               if shouldShowLog log minLevel then
                 let '(logElement, s) := createLogElement log s in
                 (fragment ++ [logElement], true, s)
               else (fragment, hasNewVisibleLogs, s))
            newLogs (fragment, flag, s)
  = (fragment ++ elementsFrom (nextNodeId (document s)) (filterLogsByLevel newLogs minLevel),
     flag || negb (Nat.eqb (length (filterLogsByLevel newLogs minLevel)) 0),
     advance (length (filterLogsByLevel newLogs minLevel)) s).
Proof.
  revert fragment flag s; induction newLogs as [|log newLogs IH];
    intros fragment flag s; cbn.
  - by rewrite app_nil_r, advance_0, orb_false_r.
  - destruct (shouldShowLog log minLevel) eqn:Hshow; cbn.
    + rewrite IH, advance_S. cbn. rewrite <- app_assoc. by rewrite orb_true_r.
    + by rewrite IH.
Qed.

(** ** [LogPanel.update], by cases *)

Lemma syncSelect_this lvl s : this (syncSelect lvl s) = this s.
Proof.
  unfold syncSelect. destruct (logLevelSelect (document s)); [|done].
  by destruct (negb _).
Qed.

Lemma syncSelect_logsPanel lvl s :
  logsPanel (document (syncSelect lvl s)) = logsPanel (document s).
Proof.
  unfold syncSelect. destruct (logLevelSelect (document s)); [|done].
  by destruct (negb _).
Qed.

Lemma syncSelect_nextNodeId lvl s :
  nextNodeId (document (syncSelect lvl s)) = nextNodeId (document s).
Proof.
  unfold syncSelect. destruct (logLevelSelect (document s)); [|done].
  by destruct (negb _).
Qed.

Lemma syncSelect_children lvl s : children (syncSelect lvl s) = children s.
Proof. unfold children. by rewrite syncSelect_logsPanel. Qed.

Lemma fullRender_this logs lvl s :
  this (fullRender logs lvl s) = mkSelf (length logs) (lastLogLevel (this s)).
Proof.
  unfold fullRender. destruct (Nat.eqb _ 0); [done|].
  by rewrite fullRender_loop.
Qed.

Lemma fullRender_logsPanel logs lvl s :
  logsPanel (document (fullRender logs lvl s))
  = Some (fullView (nextNodeId (document s)) (filterLogsByLevel logs lvl)).
Proof.
  unfold fullRender.
  destruct (filterLogsByLevel logs lvl) as [|log admitted] eqn:Hadm; [done|].
  cbn [length Nat.eqb]. by rewrite fullRender_loop.
Qed.

Lemma appendLogs_this logs lvl s :
  this (appendLogs logs lvl s) = mkSelf (length logs) (lastLogLevel (this s)).
Proof.
  unfold appendLogs. rewrite appendLogs_loop. cbn [orb].
  by destruct (negb _).
Qed.

Lemma appendLogs_logsPanel logs lvl s :
  logsPanel (document (appendLogs logs lvl s))
  = Some (removeFirst (matchesClass "log-empty") (children s)
          ++ elementsFrom (nextNodeId (document s))
               (filterLogsByLevel (drop (lastRenderedCount (this s)) logs) lvl)).
Proof.
  unfold appendLogs. rewrite appendLogs_loop. cbn [orb].
  destruct (filterLogsByLevel _ lvl) as [|log admitted] eqn:Hadm; cbn.
  - by rewrite app_nil_r.
  - done.
Qed.

Lemma update_absent logs lvl s :
  logsPanel (document s) = None → update logs lvl s = s.
Proof. intros H. unfold update. by rewrite H. Qed.

Lemma update_full logs lvl s :
  is_Some (logsPanel (document s)) →
  lvl ≠ lastLogLevel (this s) ∨ length logs < lastRenderedCount (this s) →
  update logs lvl s = fullRender logs lvl (setLastLogLevel lvl (syncSelect lvl s)).
Proof.
  intros [c Hc] Hcond. unfold update. rewrite Hc, syncSelect_this.
  assert (negb (String.eqb lvl (lastLogLevel (this s)))
          || Nat.ltb (length logs) (lastRenderedCount (this s)) = true) as ->; [|done].
  destruct Hcond as [Hne | Hlt].
  - apply String.eqb_neq in Hne. by rewrite Hne.
  - apply Nat.ltb_lt in Hlt. rewrite Hlt. apply orb_true_r.
Qed.

Lemma update_append logs lvl s :
  is_Some (logsPanel (document s)) →
  lvl = lastLogLevel (this s) →
  lastRenderedCount (this s) < length logs →
  update logs lvl s = appendLogs logs lvl (setLastLogLevel lvl (syncSelect lvl s)).
Proof.
  intros [c Hc] Heq Hlt. unfold update. rewrite Hc, syncSelect_this.
  apply String.eqb_eq in Heq. rewrite Heq. cbn [negb orb].
  assert (Nat.ltb (length logs) (lastRenderedCount (this s)) = false) as ->
    by (apply Nat.ltb_ge; lia).
  cbn [setLastLogLevel this lastRenderedCount]. rewrite syncSelect_this.
  apply Nat.ltb_lt in Hlt. by rewrite Hlt.
Qed.

Lemma update_same logs lvl s :
  is_Some (logsPanel (document s)) →
  lvl = lastLogLevel (this s) →
  length logs = lastRenderedCount (this s) →
  update logs lvl s = setLastLogLevel lvl (syncSelect lvl s).
Proof.
  intros [c Hc] Heq Hlen. unfold update. rewrite Hc, syncSelect_this.
  apply String.eqb_eq in Heq. rewrite Heq. cbn [negb orb].
  rewrite Hlen, Nat.ltb_irrefl.
  cbn [setLastLogLevel this lastRenderedCount]. rewrite syncSelect_this.
  by rewrite Nat.ltb_irrefl.
Qed.

Lemma update_present logs lvl s :
  is_Some (logsPanel (document s)) → is_Some (logsPanel (document (update logs lvl s))).
Proof.
  intros Hs.
  destruct (decide (lvl = lastLogLevel (this s))) as [Heq|Hne].
  - destruct (lt_eq_lt_dec (length logs) (lastRenderedCount (this s))) as [[Hlt|Hlen]|Hgt].
    + rewrite update_full by auto. rewrite fullRender_logsPanel. eauto.
    + rewrite update_same by auto. cbn. by rewrite syncSelect_logsPanel.
    + rewrite update_append by auto. rewrite appendLogs_logsPanel. eauto.
  - rewrite update_full by auto. rewrite fullRender_logsPanel. eauto.
Qed.

Lemma update_lastLogLevel logs lvl s :
  is_Some (logsPanel (document s)) → lastLogLevel (this (update logs lvl s)) = lvl.
Proof.
  intros Hs.
  destruct (decide (lvl = lastLogLevel (this s))) as [Heq|Hne].
  - destruct (lt_eq_lt_dec (length logs) (lastRenderedCount (this s))) as [[Hlt|Hlen]|Hgt].
    + rewrite update_full by auto. by rewrite fullRender_this.
    + by rewrite update_same by auto.
    + rewrite update_append by auto. by rewrite appendLogs_this.
  - rewrite update_full by auto. by rewrite fullRender_this.
Qed.

Lemma entriesOf_fullView i admitted : entriesOf (fullView i admitted) = admitted.
Proof.
  destruct admitted as [|log admitted]; [done|].
  apply (entriesOf_elementsFrom i (log :: admitted)).
Qed.

Lemma shown_fullRender logs lvl s :
  shown (fullRender logs lvl s) = filterLogsByLevel logs lvl.
Proof.
  unfold shown, children. rewrite fullRender_logsPanel. cbn [default from_option id].
  apply entriesOf_fullView.
Qed.

(** The three branches of [update] on a page that has the panel: the
    counter always ends at the raw length of [logs]; a full render replaces
    the children by fresh elements of all admitted entries (or by the
    empty-state message); an append keeps the children, except the first
    one of class [log-empty], and adds fresh elements for the admitted
    entries beyond the counter; otherwise nothing in the panel changes. *)
Lemma update_cases logs lvl s :
  is_Some (logsPanel (document s)) →
  let s' := update logs lvl s in
  let i := nextNodeId (document s) in
  if decide (lvl ≠ lastLogLevel (this s) ∨ length logs < lastRenderedCount (this s)) then
    s' = fullRender logs lvl (setLastLogLevel lvl (syncSelect lvl s))
    ∧ this s' = mkSelf (length logs) lvl
    ∧ logsPanel (document s') = Some (fullView i (filterLogsByLevel logs lvl))
  else if decide (lastRenderedCount (this s) < length logs) then
    s' = appendLogs logs lvl (setLastLogLevel lvl (syncSelect lvl s))
    ∧ this s' = mkSelf (length logs) lvl
    ∧ logsPanel (document s')
      = Some (removeFirst (matchesClass "log-empty") (children s)
              ++ elementsFrom i
                   (filterLogsByLevel (drop (lastRenderedCount (this s)) logs) lvl))
  else
    this s' = this s
    ∧ logsPanel (document s') = logsPanel (document s)
    ∧ nextNodeId (document s') = i.
Proof.
  intros Hs s' i. subst s' i.
  destruct (decide _) as [Hfull|Hnot].
  - rewrite update_full by done.
    rewrite fullRender_this, fullRender_logsPanel.
    cbn [setLastLogLevel document this lastRenderedCount lastLogLevel].
    by rewrite syncSelect_nextNodeId.
  - assert (lvl = lastLogLevel (this s)) as Heq
      by (destruct (decide (lvl = lastLogLevel (this s))); [done | tauto]).
    assert (lastRenderedCount (this s) ≤ length logs)%nat as Hle by lia.
    destruct (decide _) as [Hgrow|Hsame].
    + rewrite update_append by done.
      rewrite appendLogs_this, appendLogs_logsPanel. unfold children.
      cbn [setLastLogLevel document this lastRenderedCount lastLogLevel].
      by rewrite syncSelect_nextNodeId, syncSelect_this, syncSelect_logsPanel.
    + rewrite update_same by (done || lia).
      cbn [setLastLogLevel document this lastRenderedCount lastLogLevel].
      rewrite syncSelect_this, syncSelect_logsPanel, syncSelect_nextNodeId.
      split; [|done]. rewrite Heq. by destruct (this s).
Qed.

(** ** The severity filter *)

(** A level that [levelHierarchy] neither owns nor inherits ranks with
    INFO: among the three thresholds only INFO shows it. *)
Lemma unlisted_level_ranks_as_INFO (log : LogEntry) (T : Severity) :
  levelHierarchy !! level log = None →
  inherited (level log) objectPrototype = None →
  shouldShowLog log (levelName T) = true ↔ T = INFO.
Proof.
  intros Hown Hproto. unfold shouldShowLog, getProperty.
  rewrite Hown, Hproto. by destruct T.
Qed.

(** The shell logs its drag-and-drop warnings with level ["WARN"], which
    the store's initial threshold hides. *)
Lemma WARN_hidden_by_default msg ts :
  shouldShowLog (mkLogEntry "WARN" msg ts) (selectedLogLevel initialFields) = false.
Proof. reflexivity. Qed.

Lemma WARN_shown_only_under_INFO msg ts (T : Severity) :
  shouldShowLog (mkLogEntry "WARN" msg ts) (levelName T) = true ↔ T = INFO.
Proof. by apply unlisted_level_ranks_as_INFO. Qed.

(** C2. An entry of severity [sev] is admitted under threshold [T] exactly
    when [severity_rank sev <= severity_rank T], for the ranking
    ERROR < WARNING < INFO.  On a fresh panel the entries INFO "a",
    WARNING "b", ERROR "c" under threshold WARNING render as the elements
    of "b" and "c"; the next update with threshold INFO and the same
    entries is a full render whose elements are those of "a", "b", "c". *)
Theorem severity_filter_admits_by_rank :
  (∀ (sev T : Severity) msg ts,
     shouldShowLog (mkLogEntry (levelName sev) msg ts) (levelName T) = true
     ↔ (severity_rank sev ≤ severity_rank T)%nat)
  ∧ (∀ ta tb tc,
       let a := mkLogEntry "INFO" "a" ta in
       let b := mkLogEntry "WARNING" "b" tb in
       let c := mkLogEntry "ERROR" "c" tc in
       let s1 := update [a; b; c] "WARNING" freshScreen in
       let s2 := update [a; b; c] "INFO" s1 in
       logsPanel (document s1) = Some [LogElement 1 b; LogElement 2 c]
       ∧ s2 = fullRender [a; b; c] "INFO" (setLastLogLevel "INFO" (syncSelect "INFO" s1))
       ∧ logsPanel (document s2) = Some [LogElement 3 a; LogElement 4 b; LogElement 5 c]
       ∧ map message (shown s1) = ["b"; "c"]
       ∧ map message (shown s2) = ["a"; "b"; "c"]).
Proof.
  split.
  - intros sev T msg ts.
    destruct sev, T; cbn [severity_rank]; (split; [intros H; vm_compute in H|intros H; vm_compute]);
      first [done | lia].
  - intros ta tb tc. cbv zeta. repeat split; reflexivity.
Qed.

(** C10 (evaluation at the diverging input).  ["constructor"] is not one of
    ERROR, WARNING, INFO, yet an entry with that level is not ranked with
    INFO: no threshold shows it, while an INFO entry is shown under INFO.
    [levelHierarchy["constructor"]] is the function inherited from
    [Object.prototype], so [?? 2] does not apply and the comparison with a
    number is false. *)
Theorem inherited_level_is_never_shown msg ts :
  ("constructor" ∉ map levelName [ERROR; WARNING; INFO])
  ∧ (∀ T : Severity, shouldShowLog (mkLogEntry "constructor" msg ts) (levelName T) = false)
  ∧ shouldShowLog (mkLogEntry "INFO" msg ts) "INFO" = true.
Proof.
  split; [|split].
  - cbn. rewrite !elem_of_cons. intros [H|[H|[H|H]]]; try discriminate H.
    by apply elem_of_nil in H.
  - by intros [].
  - reflexivity.
Qed.

(** ** Rendering *)

(** C1 (evaluation at the diverging input).  An entry whose level is
    ["EMPTY"] is admitted and rendered under threshold INFO; its element has
    class [log-entry log-empty].  When one more entry arrives, the append
    path takes that element for the empty-state message and removes it:
    the panel holds the element of the new entry only. *)
Theorem append_removes_rendered_entry ta tb :
  let a := mkLogEntry "EMPTY" "a" ta in
  let b := mkLogEntry "INFO" "b" tb in
  let s1 := update [a] "INFO" freshScreen in
  let s2 := update [a; b] "INFO" s1 in
  logsPanel (document s1) = Some [LogElement 1 a]
  ∧ s2 = appendLogs [a; b] "INFO" (setLastLogLevel "INFO" (syncSelect "INFO" s1))
  ∧ filterLogsByLevel [a; b] "INFO" = [a; b]
  ∧ logsPanel (document s2) = Some [LogElement 2 b].
Proof. cbv zeta. repeat split; reflexivity. Qed.

(** C4 (evaluation at the diverging input).  A fresh panel updated with no
    entries under threshold WARNING shows the empty-state message.  When an
    INFO entry arrives, which WARNING does not admit, the append path
    removes the message and adds nothing: the panel is left without
    children. *)
Theorem append_of_hidden_entry_blanks_panel ts :
  let x := mkLogEntry "INFO" "x" ts in
  let s1 := update [] "WARNING" freshScreen in
  let s2 := update [x] "WARNING" s1 in
  logsPanel (document s1) = Some [EmptyMessage 1]
  ∧ shouldShowLog x "WARNING" = false
  ∧ s2 = appendLogs [x] "WARNING" (setLastLogLevel "WARNING" (syncSelect "WARNING" s1))
  ∧ logsPanel (document s2) = Some [].
Proof. cbv zeta. repeat split; reflexivity. Qed.

(** What does hold of the empty-state message: a screen whose counter is
    zero shows it, updates keep it that way, and the Clear button always
    ends on it. *)
Lemma freshScreen_placeholderWhenEmpty : placeholderWhenEmpty freshScreen.
Proof. intros _. by exists 0. Qed.

Lemma update_placeholderWhenEmpty logs lvl s :
  is_Some (logsPanel (document s)) →
  placeholderWhenEmpty s → placeholderWhenEmpty (update logs lvl s).
Proof.
  intros Hs Hinv Hzero. pose proof (update_cases logs lvl s Hs) as Hcases.
  cbv zeta in Hcases.
  destruct (decide _) as [Hfull|Hnot]; [|destruct (decide _) as [Hgrow|Hsame]].
  - destruct Hcases as (_ & Hthis & Hpanel). rewrite Hthis in Hzero. cbn in Hzero.
    apply length_zero_iff_nil in Hzero as ->. rewrite Hpanel. by eexists.
  - destruct Hcases as (_ & Hthis & _). rewrite Hthis in Hzero. cbn in Hzero. lia.
  - destruct Hcases as (Hthis & Hpanel & _). rewrite Hthis in Hzero.
    rewrite Hpanel. auto.
Qed.

Lemma clearClick_shows_placeholder lvl s :
  is_Some (logsPanel (document s)) →
  placeholderWhenEmpty s →
  lastRenderedCount (this (clearClick lvl s)) = 0
  ∧ ∃ i, logsPanel (document (clearClick lvl s)) = Some [EmptyMessage i].
Proof.
  intros Hs Hinv. split; [done|].
  unfold clearClick. cbn [setLastRenderedCount document].
  pose proof (update_cases [] lvl s Hs) as Hcases. cbv zeta in Hcases.
  destruct (decide _) as [Hfull|Hnot]; [|destruct (decide _) as [Hgrow|Hsame]].
  - destruct Hcases as (_ & _ & Hpanel). rewrite Hpanel. by eexists.
  - cbn in Hgrow. lia.
  - destruct Hcases as (_ & Hpanel & _). rewrite Hpanel. apply Hinv.
    cbn in Hsame, Hnot. lia.
Qed.

(** The append path leaves every child in place except the first one of
    class [log-empty]; that is the empty-state message as long as no log
    element carries the class, which is so for the levels of the design
    and for the shell's ["WARN"]. *)
Lemma removeFirst_message_only nodes :
  Forall (λ n, isEmptyMessage n = false → matchesClass "log-empty" n = false) nodes →
  removeFirst (matchesClass "log-empty") nodes = removeFirst isEmptyMessage nodes.
Proof.
  induction 1 as [|n nodes Hn _ IH]; cbn [removeFirst]; [done|].
  destruct n as [i|i log]; [done|].
  rewrite (Hn eq_refl). cbn [isEmptyMessage]. by rewrite IH.
Qed.

Lemma severity_class_is_not_log_empty i (sev : Severity) msg ts :
  matchesClass "log-empty" (LogElement i (mkLogEntry (levelName sev) msg ts)) = false.
Proof. by destruct sev. Qed.

Lemma WARN_class_is_not_log_empty i msg ts :
  matchesClass "log-empty" (LogElement i (mkLogEntry "WARN" msg ts)) = false.
Proof. reflexivity. Qed.

(** C5. With the panel on the page and [T1 ≠ T2]: after updates with
    threshold [T1], then [T2], then [T1] again on the same entries, the
    panel shows exactly the entries [T1] admits, in log order, which is
    what one update with [T1] shows on a fresh panel. *)
Theorem threshold_round_trip (logs : list LogEntry) (T1 T2 : string) (s : Screen) :
  is_Some (logsPanel (document s)) →
  T1 ≠ T2 →
  let s3 := update logs T1 (update logs T2 (update logs T1 s)) in
  shown s3 = filterLogsByLevel logs T1
  ∧ shown s3 = shown (update logs T1 freshScreen).
Proof.
  intros Hs Hne s3.
  assert (shown s3 = filterLogsByLevel logs T1) as Hs3.
  { subst s3. rewrite update_full.
    - apply shown_fullRender.
    - by do 2 apply update_present.
    - left. rewrite update_lastLogLevel; [done | by apply update_present]. }
  split; [done|]. rewrite Hs3. symmetry.
  assert (is_Some (logsPanel (document freshScreen))) as Hfresh by (by eexists).
  destruct (decide (T1 = "")) as [->|Hnon].
  - destruct logs as [|log logs]; [done|].
    rewrite update_append; [| done | done | cbn; lia].
    unfold shown, children. rewrite appendLogs_logsPanel.
    cbn [default from_option id]. rewrite entriesOf_app.
    by rewrite entriesOf_elementsFrom.
  - rewrite update_full; [apply shown_fullRender | done | by left].
Qed.

Lemma threshold_round_trip_witness :
  let logs := [mkLogEntry "INFO" "a" "t1"; mkLogEntry "ERROR" "c" "t2"] in
  let s3 := update logs "WARNING" (update logs "INFO" (update logs "WARNING" freshScreen)) in
  shown s3 = filterLogsByLevel logs "WARNING"
  ∧ shown s3 = shown (update logs "WARNING" freshScreen).
Proof.
  apply (threshold_round_trip
           [mkLogEntry "INFO" "a" "t1"; mkLogEntry "ERROR" "c" "t2"]
           "WARNING" "INFO" freshScreen).
  - eexists; reflexivity.
  - discriminate.
Defined.

(** ** The store: notification *)

Lemma runAction_frames O a w act :
  arrays w !! O = Some a →
  frames O a w (runAction w act) ∧ trace (runAction w act) = trace w.
Proof.
  intros Ha. destruct act as [l|l]; cbn; (split; [split|]); try done; cbn.
  - destruct (decide (listeners w = O)) as [->|Hne].
    + exists [l]. by rewrite list_lookup_alter_eq, Ha.
    + exists []. by rewrite list_lookup_alter_ne, app_nil_r.
  - exists []. rewrite app_nil_r, lookup_app_l; [done|].
    by eapply lookup_lt_Some.
Qed.

Lemma frames_trans O a ext w1 w2 w3 :
  frames O a w1 w2 → arrays w2 !! O = Some (a ++ ext) →
  frames O (a ++ ext) w2 w3 → frames O a w1 w3.
Proof.
  intros [Hf Hc Hk Hr _] _ [Hf' Hc' Hk' Hr' [ext' He]].
  split; try congruence.
  exists (ext ++ ext'). by rewrite app_assoc.
Qed.

Lemma frames_refl O a w : arrays w !! O = Some a → frames O a w w.
Proof. intros Ha. split; try done. exists []. by rewrite app_nil_r. Qed.

Lemma body_frames O acts : ∀ a w,
  arrays w !! O = Some a →
  frames O a w (fold_left runAction acts w)
  ∧ trace (fold_left runAction acts w) = trace w.
Proof.
  induction acts as [|act acts IH]; intros a w Ha; cbn.
  - split; [by apply frames_refl | done].
  - destruct (runAction_frames O a w act Ha) as [Hfr Htr].
    destruct (frames_array _ _ _ _ Hfr) as [ext Hext].
    destruct (IH _ _ Hext) as [Hfr' Htr'].
    split; [by eapply frames_trans | congruence].
Qed.

Lemma call_frames O a l w :
  arrays w !! O = Some a →
  frames O a w (call l w) ∧ trace (call l w) = trace w ++ [Called l].
Proof.
  intros Ha. unfold call.
  destruct (body_frames O (callbacks w l) a (emit (Called l) w) Ha) as [[Hf Hc Hk Hr He] Htr].
  split; [by split | done].
Qed.

(** [forEach] calls the elements the array had at the indices it was
    asked to visit, whatever the bodies do to the subscription list. *)
Lemma forEach_calls O : ∀ remaining k a w,
  arrays w !! O = Some a →
  (k + remaining ≤ length a)%nat →
  frames O a w (forEach O k remaining w)
  ∧ trace (forEach O k remaining w) = trace w ++ map Called (take remaining (drop k a)).
Proof.
  induction remaining as [|remaining IH]; intros k a w Ha Hlen; cbn [forEach].
  - rewrite take_0, app_nil_r. split; [by apply frames_refl | done].
  - destruct (lookup_lt_is_Some_2 a k) as [l Hl]; [lia|].
    rewrite Ha. cbn [mbind option_bind]. rewrite Hl.
    destruct (call_frames O a l w Ha) as [Hfr Htr].
    destruct (frames_array _ _ _ _ Hfr) as [ext Hext].
    destruct (IH (S k) (a ++ ext) (call l w) Hext) as [Hfr' Htr'].
    { rewrite length_app. lia. }
    split; [by eapply frames_trans|].
    rewrite Htr', Htr, <- app_assoc. f_equal.
    rewrite (drop_S a l k Hl). cbn. f_equal.
    rewrite drop_app_le by lia. rewrite take_app_le; [done|].
    rewrite length_drop. lia.
Qed.

Lemma notify_spec w :
  fields (notify w) = fields w
  ∧ callbacks (notify w) = callbacks w
  ∧ clock (notify w) = clock w
  ∧ clockReads (notify w) = clockReads w
  ∧ trace (notify w) = trace w ++ Notified (fields w) :: map Called (listenerArray w).
Proof.
  unfold notify, listenerArray.
  destruct (arrays w !! listeners w) as [a|] eqn:Ha; cbn [default from_option id].
  - destruct (forEach_calls (listeners w) (length a) 0 a (emit (Notified (fields w)) w) Ha)
      as [[Hf Hc Hk Hr _] Htr]; [cbn; lia|].
    rewrite Htr. cbn [drop]. rewrite firstn_all.
    repeat split; try done. cbn. by rewrite <- app_assoc.
  - cbn. repeat split; done.
Qed.

Lemma notifications_app t1 t2 :
  notifications (t1 ++ t2) = notifications t1 ++ notifications t2.
Proof.
  induction t1 as [|[f|l] t1 IH]; cbn; [done | by rewrite IH | done].
Qed.

Lemma calls_app t1 t2 : calls (t1 ++ t2) = calls t1 ++ calls t2.
Proof.
  induction t1 as [|[f|l] t1 IH]; cbn; [done | done | by rewrite IH].
Qed.

Lemma notifications_Called ls : notifications (map Called ls) = [].
Proof. by induction ls. Qed.

Lemma calls_Called ls : calls (map Called ls) = ls.
Proof. induction ls as [|l ls IH]; cbn; [done | by rewrite IH]. Qed.

Lemma fields_notify w : fields (notify w) = fields w.
Proof. apply notify_spec. Qed.

Lemma clock_notify w : clock (notify w) = clock w.
Proof. apply notify_spec. Qed.

Lemma clockReads_notify w : clockReads (notify w) = clockReads w.
Proof. apply notify_spec. Qed.

Lemma trace_notify w :
  trace (notify w) = trace w ++ Notified (fields w) :: map Called (listenerArray w).
Proof. apply notify_spec. Qed.

Lemma notifications_notify w :
  notifications (trace (notify w)) = notifications (trace w) ++ [fields w].
Proof.
  rewrite trace_notify, notifications_app. cbn. by rewrite notifications_Called.
Qed.

(** C7. A notification calls exactly the listeners that were in the
    subscription array when it began, each once and in registration order,
    whatever the listener bodies do to the subscription list meanwhile:
    an unsubscription replaces [this.listeners] by a filtered copy and
    leaves the array being iterated as it was. *)
Theorem notify_delivers_to_listeners_at_start (w : World) :
  trace (notify w) = trace w ++ Notified (fields w) :: map Called (listenerArray w)
  ∧ calls (trace (notify w)) = calls (trace w) ++ listenerArray w.
Proof.
  split; [apply trace_notify|].
  rewrite trace_notify, calls_app. cbn. by rewrite calls_Called.
Qed.

(** A run in which the first listener unsubscribes the second and itself:
    all three are still called, and only the third stays subscribed. *)
Example unsubscribe_during_notify :
  let body l := match l with 1 => [Unsubscribe 2; Unsubscribe 1] | _ => [] end in
  let w := subscribe 3 (subscribe 2 (subscribe 1 (AppState.new body (λ _, "")))) in
  listenerArray w = [1; 2; 3]
  ∧ calls (trace (notify w)) = [1; 2; 3]
  ∧ listenerArray (notify w) = [3].
Proof. cbv zeta. repeat split; reflexivity. Qed.

(** ** The store: mutation methods *)

Ltac unfold_methods :=
  unfold setSelectedPath, setProcessing, setProcessingResult, setSelectedLogLevel,
    updateProgress, setStatusMessage, addLog, clearLogs, reset;
  cbn [now].

Lemma mutate_trace m w :
  trace (mutate w m)
  = trace w ++ Notified (fields (mutate w m)) :: map Called (listenerArray w).
Proof.
  destruct m; cbn [mutate]; unfold_methods; by rewrite trace_notify, fields_notify.
Qed.

Lemma mutate_notifications m w :
  notifications (trace (mutate w m)) = notifications (trace w) ++ [fields (mutate w m)].
Proof.
  rewrite mutate_trace, notifications_app. cbn. by rewrite notifications_Called.
Qed.

Lemma mutate_redundant m w :
  m ∈ redundantCalls (fields w) → fields (mutate w m) = fields w.
Proof.
  unfold redundantCalls. rewrite !elem_of_cons, elem_of_nil.
  intros [->|[->|[->|[->|[->|[->|[]]]]]]]; cbn [mutate]; unfold_methods;
    rewrite fields_notify; cbn [setFields fields]; by destruct (fields w).
Qed.

(** C8. Every mutation method returns a state (the embedding is a total
    function) and ends in exactly one notification, carrying the updated
    fields and reaching every subscribed listener; this is so also for a
    setter called with the value the field already has, which leaves the
    fields as they were; [reset] puts every field back to its initial
    value, with one notification. *)
Theorem every_mutation_notifies (m : Mutation) (w : World) :
  notifications (trace (mutate w m)) = notifications (trace w) ++ [fields (mutate w m)]
  ∧ calls (trace (mutate w m)) = calls (trace w) ++ listenerArray w
  ∧ Forall (λ m', fields (mutate w m') = fields w
                  ∧ notifications (trace (mutate w m')) = notifications (trace w) ++ [fields w])
      (redundantCalls (fields w))
  ∧ fields (mutate w Reset) = initialFields
  ∧ notifications (trace (mutate w Reset)) = notifications (trace w) ++ [initialFields].
Proof.
  split; [apply mutate_notifications|].
  split. { rewrite mutate_trace, calls_app. cbn. by rewrite calls_Called. }
  assert (fields (mutate w Reset) = initialFields) as Hreset.
  { cbn [mutate]. unfold reset. by rewrite fields_notify. }
  split; [|split; [done|]].
  - apply Forall_forall. intros m' Hm'.
    rewrite mutate_notifications. by rewrite (mutate_redundant m' w Hm').
  - by rewrite mutate_notifications, Hreset.
Qed.

(** The field updates of the methods the shell calls. *)
Lemma fields_setSelectedPath p w :
  fields (setSelectedPath p w)
  = mkFields p (isProcessing (fields w)) (logs (fields w)) (processingResult (fields w))
      (selectedLogLevel (fields w)) (progressCurrent (fields w)) (progressTotal (fields w))
      (currentTaskCategory (fields w)) (statusMessage (fields w)).
Proof. unfold_methods. by rewrite fields_notify. Qed.

Lemma fields_setProcessing b w :
  fields (setProcessing b w)
  = mkFields (selectedPath (fields w)) b (logs (fields w)) (processingResult (fields w))
      (selectedLogLevel (fields w)) (progressCurrent (fields w)) (progressTotal (fields w))
      (currentTaskCategory (fields w)) (statusMessage (fields w)).
Proof. unfold_methods. by rewrite fields_notify. Qed.

Lemma fields_setProcessingResult r w :
  fields (setProcessingResult r w)
  = mkFields (selectedPath (fields w)) (isProcessing (fields w)) (logs (fields w)) r
      (selectedLogLevel (fields w)) (progressCurrent (fields w)) (progressTotal (fields w))
      (currentTaskCategory (fields w)) (statusMessage (fields w)).
Proof. unfold_methods. by rewrite fields_notify. Qed.

Lemma fields_updateProgress c t cat w :
  fields (updateProgress c t cat w)
  = mkFields (selectedPath (fields w)) (isProcessing (fields w)) (logs (fields w))
      (processingResult (fields w)) (selectedLogLevel (fields w)) c t cat
      (statusMessage (fields w)).
Proof. unfold_methods. by rewrite fields_notify. Qed.

Lemma fields_setStatusMessage msg w :
  fields (setStatusMessage msg w)
  = mkFields (selectedPath (fields w)) (isProcessing (fields w)) (logs (fields w))
      (processingResult (fields w)) (selectedLogLevel (fields w))
      (progressCurrent (fields w)) (progressTotal (fields w))
      (currentTaskCategory (fields w)) msg.
Proof. unfold_methods. by rewrite fields_notify. Qed.

Lemma fields_addLog lvl msg w :
  fields (addLog lvl msg w)
  = mkFields (selectedPath (fields w)) (isProcessing (fields w))
      (logs (fields w) ++ [mkLogEntry lvl msg (clock w (clockReads w))])
      (processingResult (fields w)) (selectedLogLevel (fields w))
      (progressCurrent (fields w)) (progressTotal (fields w))
      (currentTaskCategory (fields w)) (statusMessage (fields w)).
Proof. unfold_methods. by rewrite fields_notify. Qed.

Lemma notifications_setFields f w :
  notifications (trace (notify (setFields f w))) = notifications (trace w) ++ [f].
Proof. by rewrite notifications_notify. Qed.

Lemma notifications_addLog lvl msg w :
  notifications (trace (addLog lvl msg w))
  = notifications (trace w) ++ [fields (addLog lvl msg w)].
Proof. apply (mutate_notifications (AddLog lvl msg)). Qed.

Lemma notifications_setProcessing b w :
  notifications (trace (setProcessing b w))
  = notifications (trace w) ++ [fields (setProcessing b w)].
Proof. apply (mutate_notifications (SetProcessing b)). Qed.

Lemma notifications_setProcessingResult r w :
  notifications (trace (setProcessingResult r w))
  = notifications (trace w) ++ [fields (setProcessingResult r w)].
Proof. apply (mutate_notifications (SetProcessingResult r)). Qed.

Lemma notifications_updateProgress c t cat w :
  notifications (trace (updateProgress c t cat w))
  = notifications (trace w) ++ [fields (updateProgress c t cat w)].
Proof. apply (mutate_notifications (UpdateProgress c t cat)). Qed.

Lemma notifications_setStatusMessage msg w :
  notifications (trace (setStatusMessage msg w))
  = notifications (trace w) ++ [fields (setStatusMessage msg w)].
Proof. apply (mutate_notifications (SetStatusMessage msg)). Qed.

Lemma notifications_setSelectedPath p w :
  notifications (trace (setSelectedPath p w))
  = notifications (trace w) ++ [fields (setSelectedPath p w)].
Proof. apply (mutate_notifications (SetSelectedPath p)). Qed.

Create Rewrite HintDb store.
Create Rewrite HintDb store_trace.
#[local] Hint Rewrite fields_setSelectedPath fields_setProcessing fields_setProcessingResult
  fields_updateProgress fields_setStatusMessage fields_addLog : store.
#[local] Hint Rewrite notifications_addLog notifications_setProcessing
  notifications_setProcessingResult notifications_updateProgress
  notifications_setStatusMessage notifications_setSelectedPath : store_trace.

(** Handlers only ever add notifications to the trace. *)
Lemma interleave_extends during : ∀ w,
  ∃ rest, notifications (trace (interleave during w)) = notifications (trace w) ++ rest.
Proof.
  unfold interleave.
  induction during as [|m during IH]; intros w; cbn [fold_left].
  - exists []. by rewrite app_nil_r.
  - destruct (IH (mutate w m)) as [rest Hrest].
    exists (fields (mutate w m) :: rest).
    rewrite Hrest, mutate_notifications. by rewrite <- app_assoc.
Qed.

Lemma startProcessing_settle_extends settled w :
  ∃ rest, notifications (trace (startProcessing_settle settled w))
          = notifications (trace w) ++ rest.
Proof.
  unfold startProcessing_settle. destruct settled as [result|error];
    autorewrite with store_trace; rewrite <- !app_assoc; eauto.
Qed.

(** ** The shell: starting a job *)

Lemma startProcessing_started backend during w :
  canStart w →
  startProcessing backend during w
  = startProcessing_settle (start_processing backend (selectedPath (fields w)))
      (interleave during (startProcessing_begin w)).
Proof.
  intros [Hpath Hidle]. unfold startProcessing. rewrite Hpath, Hidle. cbn [negb orb].
  do 2 f_equal. unfold startProcessing_begin. by autorewrite with store.
Qed.

Lemma startProcessing_refused backend during w :
  truthyOpt (selectedPath (fields w)) = false ∨ isProcessing (fields w) = true →
  startProcessing backend during w = w.
Proof.
  intros [H|H]; unfold startProcessing; rewrite H; [done|].
  by rewrite orb_true_r.
Qed.

(** C6. When [startProcessing] runs from an idle store with a selected
    path, then however the backend call settles and whatever other handlers
    did to the store meanwhile, the store ends with [isProcessing = false];
    if the call was rejected with [error], the status message is
    ["Error: " + error] and the last log entry is an ERROR entry
    ["Processing failed: " + error]. *)
Theorem startProcessing_always_resets_flag
    (backend : Backend) (during : list Mutation) (w : World) :
  canStart w →
  let w' := startProcessing backend during w in
  isProcessing (fields w') = false
  ∧ ∀ error, start_processing backend (selectedPath (fields w)) = Rejected error →
      statusMessage (fields w') = "Error: " +:+ error
      ∧ ∃ older ts,
          logs (fields w')
          = older ++ [mkLogEntry "ERROR" ("Processing failed: " +:+ error) ts].
Proof.
  intros Hstart w'. subst w'. rewrite startProcessing_started by done.
  split.
  - unfold startProcessing_settle. by autorewrite with store.
  - intros error ->. unfold startProcessing_settle. autorewrite with store.
    cbn [statusMessage logs]. split; [done | eauto].
Qed.

Lemma startProcessing_always_resets_flag_witness :
  let backend := mkBackend Resolved (λ _, Rejected "engine not found") in
  let w := setSelectedPath (Some "/x") (AppState.new (λ _, []) (λ _, "")) in
  let w' := startProcessing backend [AddLog "INFO" "working"; Reset] w in
  canStart w
  ∧ isProcessing (fields w') = false
  ∧ ∀ error, start_processing backend (selectedPath (fields w)) = Rejected error →
      statusMessage (fields w') = "Error: " +:+ error
      ∧ ∃ older ts,
          logs (fields w')
          = older ++ [mkLogEntry "ERROR" ("Processing failed: " +:+ error) ts].
Proof.
  cbv zeta.
  assert (canStart (setSelectedPath (Some "/x") (AppState.new (λ _, []) (λ _, ""))))
    as Hstart by (split; reflexivity).
  split; [exact Hstart|].
  exact (startProcessing_always_resets_flag
           (mkBackend Resolved (λ _, Rejected "engine not found"))
           [AddLog "INFO" "working"; Reset] _ Hstart).
Defined.

(** ** The shell: the drop handler *)

Lemma scanItems_no_path items :
  Forall (λ item, kind item = "file" →
                  ∀ file, getAsFile item = Some file → truthyOpt (path file) = false) items →
  scanItems items = None.
Proof.
  induction 1 as [|item items Hitem _ IH]; cbn [scanItems]; [done|].
  destruct (String.eqb (kind item) "file") eqn:Hkind; [|done].
  apply String.eqb_eq in Hkind.
  destruct (getAsFile item) as [file|] eqn:Hfile; [|done].
  by rewrite (Hitem Hkind file eq_refl).
Qed.

(** C9. A drop whose data transfer has an empty file list and an item
    list in which no file-kind item yields a file with a usable [path]:
    the handler appends one ERROR entry, "No files found in drop event or
    could not extract path", to the log, with one notification, and leaves
    every other field of the store as it was. *)
Theorem drop_without_usable_path_only_logs_error
    (backend : Backend) (during : list Mutation) (e : DragEvent) (dt : DataTransfer)
    (w : World) :
  dataTransfer e = Some dt →
  files dt = [] →
  Forall (λ item, kind item = "file" →
                  ∀ file, getAsFile item = Some file → truthyOpt (path file) = false)
    (items dt) →
  let f := fields w in
  let entry := mkLogEntry "ERROR" "No files found in drop event or could not extract path"
                 (clock w (clockReads w)) in
  let w' := onDrop backend during e w in
  fields w'
  = mkFields (selectedPath f) (isProcessing f) (logs f ++ [entry]) (processingResult f)
      (selectedLogLevel f) (progressCurrent f) (progressTotal f)
      (currentTaskCategory f) (statusMessage f)
  ∧ notifications (trace w') = notifications (trace w) ++ [fields w'].
Proof.
  intros He Hfiles Hitems f entry w'. subst f entry w'.
  unfold onDrop, dropItems. rewrite He. cbn [fmap option_fmap option_map].
  rewrite Hfiles. cbn [mbind option_bind]. rewrite (scanItems_no_path _ Hitems).
  by autorewrite with store store_trace.
Qed.

Lemma drop_without_usable_path_only_logs_error_witness :
  let backend := mkBackend Resolved (λ _, Rejected "unused") in
  let item := mkItem "file" (Some (mkFile None "" "report.docx")) in
  let e := mkDragEvent (Some (mkDataTransfer [] [item])) in
  let w := setSelectedPath (Some "/x") (AppState.new (λ _, []) (λ _, "now")) in
  let w' := onDrop backend [] e w in
  fields w'
  = mkFields (Some "/x") false
      [mkLogEntry "ERROR" "No files found in drop event or could not extract path" "now"]
      None "WARNING" 0 0 "" ""
  ∧ notifications (trace w') = notifications (trace w) ++ [fields w'].
Proof.
  cbv zeta.
  apply (drop_without_usable_path_only_logs_error
           (mkBackend Resolved (λ _, Rejected "unused")) []
           (mkDragEvent
              (Some (mkDataTransfer [] [mkItem "file" (Some (mkFile None "" "report.docx"))])))
           (mkDataTransfer [] [mkItem "file" (Some (mkFile None "" "report.docx"))])
           (setSelectedPath (Some "/x") (AppState.new (λ _, []) (λ _, "now")))).
  - reflexivity.
  - reflexivity.
  - constructor; [|constructor].
    intros _ file Hfile. injection Hfile as <-. reflexivity.
Defined.

(** A dropped file that has a name only: the handler logs its warning with
    level ["WARN"] before the ERROR entry, and the initial threshold of the
    store admits the ERROR entry alone. *)
Example dropped_file_warning_is_hidden :
  let backend := mkBackend Resolved (λ _, Rejected "unused") in
  let e := mkDragEvent (Some (mkDataTransfer [mkFile None "" "report.docx"] [])) in
  let w' := onDrop backend [] e (AppState.new (λ _, []) (λ _, "now")) in
  map level (logs (fields w')) = ["WARN"; "ERROR"]
  ∧ map level (filterLogsByLevel (logs (fields w')) (selectedLogLevel (fields w')))
    = ["ERROR"].
Proof. cbv zeta. split; reflexivity. Qed.

(** Selecting a path in a new session, seen through the shell's listener:
    the first notification renders the empty-state message, the INFO entry
    "Selected: ..." arrives under the initial threshold WARNING, and the
    panel is left without children. *)
Example selecting_a_path_blanks_the_panel :
  let backend := mkBackend Resolved (λ _, Rejected "unused") in
  let w := handleUserInput backend [] "/x" (AppState.new (λ _, []) (λ _, "now")) in
  map level (logs (fields w)) = ["INFO"]
  ∧ logsPanel (document (replay (trace w) freshScreen)) = Some [].
Proof. cbv zeta. split; reflexivity. Qed.

(** * Further properties *)

(** ** LogPanel: what an update leaves behind *)

Lemma update_this logs lvl s :
  is_Some (logsPanel (document s)) →
  this (update logs lvl s) = mkSelf (length logs) lvl.
Proof.
  intros Hs. pose proof (update_cases logs lvl s Hs) as Hcases. cbv zeta in Hcases.
  destruct (decide _) as [Hfull|Hnot]; [|destruct (decide _) as [Hgrow|Hsame]].
  - apply Hcases.
  - apply Hcases.
  - destruct Hcases as (-> & _).
    assert (lvl = lastLogLevel (this s)) as ->
      by (destruct (decide (lvl = lastLogLevel (this s))); [done | tauto]).
    assert (length logs = lastRenderedCount (this s)) as -> by lia.
    by destruct (this s).
Qed.

(** X1. On a page that has the panel, every update leaves the panel's
    bookkeeping equal to its arguments: [lastRenderedCount] is the raw
    length of the log it was given and [lastLogLevel] the threshold, in
    the full-render, the append and the unchanged case alike. *)
Theorem update_records_its_arguments (logs : list LogEntry) (lvl : string) (s : Screen) :
  is_Some (logsPanel (document s)) →
  lastRenderedCount (this (update logs lvl s)) = length logs
  ∧ lastLogLevel (this (update logs lvl s)) = lvl.
Proof. intros Hs. by rewrite update_this. Qed.

Lemma update_records_its_arguments_witness :
  let logs := [mkLogEntry "INFO" "a" "t"; mkLogEntry "ERROR" "b" "t"] in
  lastRenderedCount (this (update logs "ERROR" freshScreen)) = 2
  ∧ lastLogLevel (this (update logs "ERROR" freshScreen)) = "ERROR".
Proof.
  apply (update_records_its_arguments
           [mkLogEntry "INFO" "a" "t"; mkLogEntry "ERROR" "b" "t"] "ERROR" freshScreen).
  eexists; reflexivity.
Defined.

(** The select element after an update is the one [syncSelect] left. *)
Lemma fullRender_select logs lvl s :
  logLevelSelect (document (fullRender logs lvl s)) = logLevelSelect (document s).
Proof.
  unfold fullRender. destruct (Nat.eqb _ 0); [done|].
  by rewrite fullRender_loop.
Qed.

Lemma appendLogs_select logs lvl s :
  logLevelSelect (document (appendLogs logs lvl s)) = logLevelSelect (document s).
Proof.
  unfold appendLogs. rewrite appendLogs_loop. cbn [orb].
  by destruct (negb _).
Qed.

Lemma update_select logs lvl s :
  is_Some (logsPanel (document s)) →
  logLevelSelect (document (update logs lvl s))
  = logLevelSelect (document (syncSelect lvl s)).
Proof.
  intros Hs. pose proof (update_cases logs lvl s Hs) as Hcases. cbv zeta in Hcases.
  destruct (decide _) as [Hfull|Hnot]; [|destruct (decide _) as [Hgrow|Hsame]].
  - destruct Hcases as (-> & _). by rewrite fullRender_select.
  - destruct Hcases as (-> & _). by rewrite appendLogs_select.
  - rewrite update_same; [done | done | | lia].
    destruct (decide (lvl = lastLogLevel (this s))); [done | tauto].
Qed.

Lemma syncSelect_settled lvl s :
  settled lvl (logLevelSelect (document (syncSelect lvl s))).
Proof.
  unfold syncSelect, settled.
  destruct (logLevelSelect (document s)) as [v0|] eqn:Hsel; [|by rewrite Hsel].
  destruct (String.eqb v0 lvl) eqn:Heq; cbn [negb].
  - rewrite Hsel. intros v [= <-]. left. by apply String.eqb_eq.
  - unfold setSelectValue. cbn [document logLevelSelect].
    destruct (existsb (String.eqb lvl) selectOptions) eqn:Hopt;
      intros v [= <-]; [by left | by right].
Qed.

Lemma syncSelect_fixed lvl s :
  settled lvl (logLevelSelect (document s)) → syncSelect lvl s = s.
Proof.
  unfold syncSelect, settled. intros Hset.
  destruct (logLevelSelect (document s)) as [v|] eqn:Hsel; [|done].
  destruct (Hset v eq_refl) as [->|[-> Hopt]].
  - by rewrite String.eqb_refl.
  - destruct (String.eqb "" lvl) eqn:Heq; cbn [negb]; [done|].
    unfold setSelectValue. rewrite Hopt.
    destruct s as [t [panel sel next]]. cbn in *. by rewrite Hsel.
Qed.

Lemma update_twice logs lvl s : update logs lvl (update logs lvl s) = update logs lvl s.
Proof.
  destruct (logsPanel (document s)) as [c|] eqn:Hpanel.
  - assert (is_Some (logsPanel (document s))) as Hs by eauto.
    pose proof (update_present logs lvl s Hs) as Hs'.
    pose proof (update_this logs lvl s Hs) as Hthis.
    rewrite update_same; [| done | by rewrite Hthis | by rewrite Hthis].
    rewrite syncSelect_fixed.
    + destruct (update logs lvl s) as [[n l] d]. cbn in Hthis.
      by simplify_eq.
    + rewrite update_select by done. apply syncSelect_settled.
  - rewrite (update_absent logs lvl s Hpanel). apply (update_absent logs lvl s Hpanel).
Qed.

(** X2. [update] is idempotent: a second call with the same log and the
    same threshold changes nothing, neither in the panel object nor on the
    page (with or without the panel element); in particular it creates no
    element. *)
Theorem update_idempotent (logs : list LogEntry) (lvl : string) (s : Screen) :
  update logs lvl (update logs lvl s) = update logs lvl s
  ∧ nextNodeId (document (update logs lvl (update logs lvl s)))
    = nextNodeId (document (update logs lvl s)).
Proof. by rewrite update_twice. Qed.

(** ** LogPanel: a growing log *)

Lemma matchesClass_classSafe i log :
  matchesClass "log-empty" (LogElement i log) = negb (classSafe (level log)).
Proof. unfold classSafe, matchesClass. cbn [className level]. by rewrite negb_involutive. Qed.

Lemma entriesOf_removeFirst nodes :
  Forall (λ log, classSafe (level log) = true) (entriesOf nodes) →
  entriesOf (removeFirst (matchesClass "log-empty") nodes) = entriesOf nodes.
Proof.
  induction nodes as [|[i|i log] nodes IH]; cbn [entriesOf removeFirst]; intros Hsafe.
  - done.
  - done.
  - apply Forall_cons in Hsafe as [Hlog Hrest].
    rewrite matchesClass_classSafe, Hlog. cbn [negb entriesOf]. by rewrite IH.
Qed.

Lemma filterLogsByLevel_app a b lvl :
  filterLogsByLevel (a ++ b) lvl = filterLogsByLevel a lvl ++ filterLogsByLevel b lvl.
Proof. apply List.filter_app. Qed.

Lemma filterLogsByLevel_Forall (P : LogEntry → Prop) logs lvl :
  Forall P logs → Forall P (filterLogsByLevel logs lvl).
Proof.
  rewrite !Forall_forall. intros HP log Hin. apply HP.
  apply list_elem_of_In in Hin. apply List.filter_In in Hin as [Hin _].
  by apply list_elem_of_In.
Qed.

(** One more update of a panel that is in step with the log [logs]: if
    the entries seen so far have class-safe levels, the panel shows what
    the threshold admits of the longer log. *)
Lemma update_in_step logs more lvl s :
  is_Some (logsPanel (document s)) →
  lastRenderedCount (this s) = length logs →
  shown s = filterLogsByLevel logs (lastLogLevel (this s)) →
  Forall (λ log, classSafe (level log) = true) logs →
  shown (update (logs ++ more) lvl s) = filterLogsByLevel (logs ++ more) lvl.
Proof.
  intros Hs Hcount Hshown Hsafe.
  pose proof (update_cases (logs ++ more) lvl s Hs) as Hcases. cbv zeta in Hcases.
  destruct (decide _) as [Hfull|Hnot]; [|destruct (decide _) as [Hgrow|Hsame]].
  - destruct Hcases as (-> & _). apply shown_fullRender.
  - destruct Hcases as (_ & _ & Hpanel).
    assert (lvl = lastLogLevel (this s)) as Hlvl
      by (destruct (decide (lvl = lastLogLevel (this s))); [done | tauto]).
    unfold shown at 1, children at 1. rewrite Hpanel. cbn [default from_option id].
    rewrite entriesOf_app, entriesOf_elementsFrom, entriesOf_removeFirst.
    + fold (shown s). rewrite Hshown, Hcount, drop_app_length, filterLogsByLevel_app.
      by rewrite Hlvl.
    + fold (shown s). rewrite Hshown. by apply filterLogsByLevel_Forall.
  - destruct Hcases as (_ & Hpanel & _).
    assert (lvl = lastLogLevel (this s)) as Hlvl
      by (destruct (decide (lvl = lastLogLevel (this s))); [done | tauto]).
    assert (more = []) as ->.
    { apply length_zero_iff_nil. rewrite length_app in Hsame, Hnot. lia. }
    unfold shown at 1, children at 1. rewrite Hpanel. fold (children s). fold (shown s).
    by rewrite app_nil_r, Hshown, Hlvl.
Qed.

Lemma streamUpdates_in_step lvl : ∀ chunks seen s,
  is_Some (logsPanel (document s)) →
  lastRenderedCount (this s) = length seen →
  shown s = filterLogsByLevel seen (lastLogLevel (this s)) →
  Forall (λ log, classSafe (level log) = true) (seen ++ concat chunks) →
  shown (streamUpdates lvl seen chunks s)
  = filterLogsByLevel (seen ++ concat chunks) (lastLogLevel (this (streamUpdates lvl seen chunks s))).
Proof.
  induction chunks as [|chunk chunks IH]; intros seen s Hs Hcount Hshown Hsafe;
    cbn [streamUpdates concat].
  - by rewrite app_nil_r.
  - cbn [concat] in Hsafe. rewrite app_assoc in Hsafe |- *.
    assert (Forall (λ log, classSafe (level log) = true) seen) as Hseen.
    { apply Forall_app in Hsafe as [Hsafe _]. by apply Forall_app in Hsafe as [Hsafe _]. }
    apply IH.
    + by apply update_present.
    + by rewrite update_this.
    + rewrite update_this by done. cbn [lastLogLevel]. by apply update_in_step.
    + done.
Qed.

(** X3. A log that only grows, shown through one threshold: when a fresh
    panel is updated with the whole log after each new chunk of entries
    (at least one chunk), and no level yields the class [log-empty], the
    panel shows exactly the entries the threshold admits, in log order:
    appending incrementally gives what one full render of the final log
    gives. *)
Theorem streaming_shows_admitted_entries
    (lvl : string) (chunk : list LogEntry) (chunks : list (list LogEntry)) :
  Forall (λ log, classSafe (level log) = true) (concat (chunk :: chunks)) →
  let s := streamUpdates lvl [] (chunk :: chunks) freshScreen in
  shown s = filterLogsByLevel (concat (chunk :: chunks)) lvl
  ∧ shown s = shown (fullRender (concat (chunk :: chunks)) lvl freshScreen).
Proof.
  intros Hsafe s.
  assert (is_Some (logsPanel (document freshScreen))) as Hfresh by (by eexists).
  assert (shown s = filterLogsByLevel (concat (chunk :: chunks)) lvl) as Hs.
  { subst s. cbn [streamUpdates app concat] in *.
    pose proof (streamUpdates_in_step lvl chunks chunk (update chunk lvl freshScreen)) as H.
    rewrite H.
    - clear H. f_equal.
      assert (∀ seen cs t, is_Some (logsPanel (document t)) →
                lastLogLevel (this t) = lvl →
                lastLogLevel (this (streamUpdates lvl seen cs t)) = lvl) as Hlvl.
      { intros seen cs. revert seen. induction cs as [|c cs IHcs]; intros seen t Ht Hl; [done|].
        cbn [streamUpdates]. apply IHcs; [by apply update_present | by rewrite update_this]. }
      apply Hlvl; [by apply update_present | by rewrite update_this].
    - by apply update_present.
    - by rewrite update_this.
    - rewrite update_this by done. cbn [lastLogLevel].
      apply (update_in_step [] chunk lvl freshScreen); [done | done | done | constructor].
    - done. }
  split; [done|]. by rewrite Hs, shown_fullRender.
Qed.

Lemma streaming_shows_admitted_entries_witness :
  let chunks := [[mkLogEntry "INFO" "a" "t"; mkLogEntry "ERROR" "b" "t"];
                 [mkLogEntry "WARN" "c" "t"]; [mkLogEntry "WARNING" "d" "t"]] in
  let s := streamUpdates "WARNING" [] chunks freshScreen in
  shown s = filterLogsByLevel (concat chunks) "WARNING"
  ∧ shown s = shown (fullRender (concat chunks) "WARNING" freshScreen).
Proof.
  apply (streaming_shows_admitted_entries "WARNING"
           [mkLogEntry "INFO" "a" "t"; mkLogEntry "ERROR" "b" "t"]
           [[mkLogEntry "WARN" "c" "t"]; [mkLogEntry "WARNING" "d" "t"]]).
  repeat constructor.
Defined.

(** ** LogPanel: every reachable panel *)

Lemma elementsFrom_log_elements i logs :
  Forall (λ n, isEmptyMessage n = false) (elementsFrom i logs).
Proof.
  revert i; induction logs as [|log logs IH]; intros i; cbn [elementsFrom]; by constructor.
Qed.

Lemma removeFirst_log_elements sel nodes :
  Forall (λ n, isEmptyMessage n = false) nodes →
  Forall (λ n, isEmptyMessage n = false) (removeFirst sel nodes).
Proof.
  induction 1 as [|n nodes Hn Hrest IH]; cbn [removeFirst]; [constructor|].
  destruct (sel n); [done | by constructor].
Qed.

Lemma fullView_tidy i admitted : tidy (fullView i admitted).
Proof.
  destruct admitted as [|log admitted]; [left; by eexists|].
  right. apply (elementsFrom_log_elements i (log :: admitted)).
Qed.

Lemma update_tidy logs lvl s :
  is_Some (logsPanel (document s)) →
  tidy (children s) → tidy (children (update logs lvl s)).
Proof.
  intros Hs Htidy. pose proof (update_cases logs lvl s Hs) as Hcases. cbv zeta in Hcases.
  unfold children at 1.
  destruct (decide _) as [Hfull|Hnot]; [|destruct (decide _) as [Hgrow|Hsame]].
  - destruct Hcases as (_ & _ & ->). apply fullView_tidy.
  - destruct Hcases as (_ & _ & ->). cbn [default from_option id]. right.
    apply Forall_app. split; [|apply elementsFrom_log_elements].
    destruct Htidy as [[i ->]|Hlogs]; [constructor | by apply removeFirst_log_elements].
  - destruct Hcases as (_ & -> & _). apply Htidy.
Qed.

Lemma interact_present s i :
  is_Some (logsPanel (document s)) → is_Some (logsPanel (document (interact s i))).
Proof.
  intros Hs. destruct i as [logs lvl|lvl]; cbn [interact]; [by apply update_present|].
  unfold clearClick. cbn [setLastRenderedCount document]. by apply update_present.
Qed.

Lemma interactions_present history : ∀ s,
  is_Some (logsPanel (document s)) →
  is_Some (logsPanel (document (fold_left interact history s))).
Proof.
  induction history as [|i history IH]; intros s Hs; cbn [fold_left]; [done|].
  apply IH. by apply interact_present.
Qed.

(** X4. Whatever updates and Clear clicks a panel has gone through since
    it was rendered, its children are either the empty-state message alone
    or log elements only: the message is never shown next to an entry. *)
Theorem empty_message_never_beside_entries (history : list Interaction) :
  tidy (children (fold_left interact history freshScreen)).
Proof.
  assert (∀ s, is_Some (logsPanel (document s)) → tidy (children s) →
               tidy (children (fold_left interact history s))) as Hgen.
  { induction history as [|i history IH]; intros s Hs Htidy; cbn [fold_left]; [done|].
    apply IH; [by apply interact_present|].
    destruct i as [logs lvl|lvl]; cbn [interact]; [by apply update_tidy|].
    unfold clearClick. change (children (setLastRenderedCount 0 ?x)) with (children x).
    by apply update_tidy. }
  apply Hgen; [by eexists | left; by exists 0].
Qed.

Lemma interactions_placeholderWhenEmpty history : ∀ s,
  is_Some (logsPanel (document s)) → placeholderWhenEmpty s →
  placeholderWhenEmpty (fold_left interact history s).
Proof.
  induction history as [|i history IH]; intros s Hs Hinv; cbn [fold_left]; [done|].
  apply IH; [by apply interact_present|].
  destruct i as [logs lvl|lvl]; cbn [interact]; [by apply update_placeholderWhenEmpty|].
  intros _. by apply clearClick_shows_placeholder.
Qed.

(** X5. Whatever a panel has gone through since it was rendered, a click on
    Clear (the store's [clearLogs], seen through [update], then the reset
    of the counter) leaves the empty-state message as the only child of the
    panel and [lastRenderedCount] at zero. *)
Theorem clear_always_ends_on_empty_message (history : list Interaction) (lvl : string) :
  let s := clearClick lvl (fold_left interact history freshScreen) in
  lastRenderedCount (this s) = 0
  ∧ ∃ i, logsPanel (document s) = Some [EmptyMessage i].
Proof.
  cbv zeta. apply clearClick_shows_placeholder.
  - apply interactions_present. by eexists.
  - apply interactions_placeholderWhenEmpty; [by eexists|].
    apply freshScreen_placeholderWhenEmpty.
Qed.

(** ** The severity filter, for every level string *)

Lemma levelHierarchy_bound key n : levelHierarchy !! key = Some n → (n ≤ 2)%nat.
Proof.
  unfold levelHierarchy. intros H.
  do 2 (apply lookup_insert_Some in H as [[_ <-]|[_ H]]; [lia|]).
  apply lookup_singleton_Some in H as [_ <-]. lia.
Qed.

Lemma shouldShowLog_loosen log (T1 T2 : Severity) :
  (severity_rank T1 ≤ severity_rank T2)%nat →
  shouldShowLog log (levelName T1) = true → shouldShowLog log (levelName T2) = true.
Proof.
  unfold shouldShowLog, getProperty. intros Hrank.
  destruct (levelHierarchy !! level log) as [n|] eqn:Hown.
  - apply levelHierarchy_bound in Hown.
    destruct T1, T2; cbn in Hrank |- *; try lia; intros H; try done;
      apply Nat.leb_le in H; apply Nat.leb_le; lia.
  - destruct (inherited (level log) objectPrototype) as [image|]; cbn [fmap option_fmap option_map orTwo].
    + by destruct T1.
    + destruct T1, T2; cbn in Hrank |- *; try lia; intros H; done.
Qed.

(** X6. For every entry, whatever its level string: if a threshold shows
    it, every less strict threshold shows it too (ERROR, then WARNING, then
    INFO).  So filtering what a looser threshold shows by a stricter one
    gives what the stricter one shows of the whole log. *)
Theorem looser_threshold_shows_more
    (logs : list LogEntry) (T1 T2 : Severity) :
  (severity_rank T1 ≤ severity_rank T2)%nat →
  (∀ log, shouldShowLog log (levelName T1) = true → shouldShowLog log (levelName T2) = true)
  ∧ filterLogsByLevel (filterLogsByLevel logs (levelName T2)) (levelName T1)
    = filterLogsByLevel logs (levelName T1).
Proof.
  intros Hrank. split; [intros log; by apply shouldShowLog_loosen|].
  induction logs as [|log logs IH]; [done|].
  unfold filterLogsByLevel in *. cbn [List.filter].
  destruct (shouldShowLog log (levelName T2)) eqn:H2; cbn [List.filter].
  - destruct (shouldShowLog log (levelName T1)); by rewrite IH.
  - destruct (shouldShowLog log (levelName T1)) eqn:H1; [|done].
    apply (shouldShowLog_loosen log T1 T2 Hrank) in H1. congruence.
Qed.

Lemma looser_threshold_shows_more_witness :
  let logs := [mkLogEntry "ERROR" "a" "t"; mkLogEntry "constructor" "b" "t";
               mkLogEntry "WARN" "c" "t"] in
  (∀ log, shouldShowLog log "ERROR" = true → shouldShowLog log "INFO" = true)
  ∧ filterLogsByLevel (filterLogsByLevel logs "INFO") "ERROR"
    = filterLogsByLevel logs "ERROR".
Proof.
  apply (looser_threshold_shows_more
           [mkLogEntry "ERROR" "a" "t"; mkLogEntry "constructor" "b" "t";
            mkLogEntry "WARN" "c" "t"] ERROR INFO).
  cbn. lia.
Defined.

(** ** AppState: the subscription list *)

Lemma listenerArray_unsubscribe l w :
  listenerArray (unsubscribe l w)
  = List.filter (λ x, negb (Nat.eqb x l)) (listenerArray w).
Proof.
  unfold listenerArray at 1, unsubscribe. cbn [arrays listeners].
  by rewrite list_lookup_middle.
Qed.

Lemma listenerArray_subscribe l w :
  wellFormed w → listenerArray (subscribe l w) = listenerArray w ++ [l].
Proof.
  intros [a Ha]. unfold listenerArray, subscribe. cbn [arrays listeners].
  by rewrite list_lookup_alter_eq, Ha.
Qed.


Lemma runAction_list w a :
  wellFormed w →
  wellFormed (runAction w a)
  ∧ callbacks (runAction w a) = callbacks w
  ∧ listenerArray (runAction w a) = applyAction (listenerArray w) a.
Proof.
  intros Hwf. destruct a as [l|l]; cbn [runAction applyAction].
  - split; [|split; [done | by apply listenerArray_subscribe]].
    destruct Hwf as [a Ha]. unfold wellFormed, subscribe. cbn [arrays listeners].
    rewrite list_lookup_alter_eq, Ha. by eexists.
  - split; [|split; [done | apply listenerArray_unsubscribe]].
    unfold wellFormed, unsubscribe. cbn [arrays listeners].
    rewrite list_lookup_middle by done. by eexists.
Qed.

Lemma body_list acts : ∀ w,
  wellFormed w →
  wellFormed (fold_left runAction acts w)
  ∧ callbacks (fold_left runAction acts w) = callbacks w
  ∧ listenerArray (fold_left runAction acts w)
    = fold_left applyAction acts (listenerArray w).
Proof.
  induction acts as [|a acts IH]; intros w Hwf; cbn [fold_left]; [done|].
  destruct (runAction_list w a Hwf) as (Hwf' & Hcb & Hls).
  destruct (IH _ Hwf') as (Hwf'' & Hcb' & Hls').
  split; [done|]. split; [congruence|]. by rewrite Hls', Hls.
Qed.

Lemma call_list l w :
  wellFormed w →
  wellFormed (call l w)
  ∧ callbacks (call l w) = callbacks w
  ∧ listenerArray (call l w) = fold_left applyAction (callbacks w l) (listenerArray w).
Proof. intros Hwf. unfold call. by apply (body_list (callbacks w l) (emit (Called l) w)). Qed.

Lemma bodies_cons w l ls : bodies w (l :: ls) = callbacks w l ++ bodies w ls.
Proof. done. Qed.

Lemma forEach_list O : ∀ remaining k a w,
  arrays w !! O = Some a →
  (k + remaining ≤ length a)%nat →
  wellFormed w →
  wellFormed (forEach O k remaining w)
  ∧ callbacks (forEach O k remaining w) = callbacks w
  ∧ listenerArray (forEach O k remaining w)
    = fold_left applyAction (bodies w (take remaining (drop k a))) (listenerArray w).
Proof.
  induction remaining as [|remaining IH]; intros k a w Ha Hlen Hwf; cbn [forEach].
  - by rewrite take_0.
  - destruct (lookup_lt_is_Some_2 a k) as [l Hl]; [lia|].
    rewrite Ha. cbn [mbind option_bind]. rewrite Hl.
    destruct (call_frames O a l w Ha) as [Hfr _].
    destruct (frames_array _ _ _ _ Hfr) as [ext Hext].
    destruct (call_list l w Hwf) as (Hwf1 & Hcb1 & Hls1).
    destruct (IH (S k) (a ++ ext) (call l w) Hext) as (Hwf' & Hcb' & Hls'); [|done|].
    { rewrite length_app. lia. }
    split; [done|]. split; [congruence|].
    rewrite Hls', Hls1. unfold bodies at 1. rewrite Hcb1. fold (bodies w).
    rewrite (drop_S a l k Hl). cbn [take]. rewrite bodies_cons, fold_left_app.
    do 2 f_equal. rewrite drop_app_le by lia. rewrite take_app_le; [done|].
    rewrite length_drop. lia.
Qed.

(** X7. In a store whose listener reference is valid, the subscription
    list after a notification is the list before it with the actions of
    the called listeners applied in call order: a [subscribe] appends, an
    unsubscribe filters.  The listeners called were those of the list
    before; the next notification calls those of the list after. *)
Theorem notify_updates_subscriptions (w : World) :
  wellFormed w →
  wellFormed (notify w)
  ∧ listenerArray (notify w)
    = fold_left applyAction (bodies w (listenerArray w)) (listenerArray w)
  ∧ calls (trace (notify (notify w)))
    = calls (trace w) ++ listenerArray w ++ listenerArray (notify w).
Proof.
  intros Hwf.
  assert (wellFormed (notify w)
          ∧ listenerArray (notify w)
            = fold_left applyAction (bodies w (listenerArray w)) (listenerArray w))
    as [Hwf' Hls].
  { destruct Hwf as [a Ha].
    assert (listenerArray w = a) as Hla by (unfold listenerArray; by rewrite Ha).
    destruct (forEach_list (listeners w) (length a) 0 a (emit (Notified (fields w)) w))
      as (H1 & _ & H3); [done | cbn; lia | by exists a |].
    unfold notify. cbv zeta. rewrite Hla. split; [done|].
    rewrite H3. cbn [drop]. rewrite firstn_all.
    change (listenerArray (emit (Notified (fields w)) w)) with (listenerArray w).
    by rewrite Hla. }
  split; [done|]. split; [done|].
  rewrite !trace_notify, !calls_app. cbn [calls]. rewrite !calls_Called.
  by rewrite <- app_assoc.
Qed.

Lemma notify_updates_subscriptions_witness :
  let body l := match l with 1 => [Unsubscribe 2; Subscribe 4] | _ => [] end in
  let w := subscribe 3 (subscribe 2 (subscribe 1 (AppState.new body (λ _, "")))) in
  wellFormed (notify w)
  ∧ listenerArray (notify w)
    = fold_left applyAction (bodies w (listenerArray w)) (listenerArray w)
  ∧ calls (trace (notify (notify w)))
    = calls (trace w) ++ listenerArray w ++ listenerArray (notify w).
Proof.
  cbv zeta.
  apply (notify_updates_subscriptions
           (subscribe 3 (subscribe 2 (subscribe 1
              (AppState.new
                 (λ l, match l with 1 => [Unsubscribe 2; Subscribe 4] | _ => [] end)
                 (λ _, "")))))).
  eexists; reflexivity.
Defined.

(** X8. Subscribing appends the listener, so that the next notification
    calls it last; the closure returned by [subscribe] removes every
    registration of that listener at once: after subscribing the same
    function twice, one unsubscription leaves it called by no later
    notification, the other listeners keeping their order. *)
Theorem unsubscribe_removes_every_registration (l : Listener) (w : World) :
  wellFormed w →
  calls (trace (notify (subscribe l w))) = calls (trace w) ++ listenerArray w ++ [l]
  ∧ listenerArray (unsubscribe l (subscribe l (subscribe l w)))
    = List.filter (λ x, negb (Nat.eqb x l)) (listenerArray w)
  ∧ l ∉ listenerArray (unsubscribe l (subscribe l (subscribe l w))).
Proof.
  intros Hwf.
  assert (wellFormed (subscribe l w)) as Hwf1
    by (apply (runAction_list w (Subscribe l) Hwf)).
  assert (listenerArray (unsubscribe l (subscribe l (subscribe l w)))
          = List.filter (λ x, negb (Nat.eqb x l)) (listenerArray w)) as Hls.
  { rewrite listenerArray_unsubscribe, !listenerArray_subscribe by done.
    rewrite !List.filter_app. cbn [List.filter]. rewrite Nat.eqb_refl. cbn [negb].
    by rewrite !app_nil_r. }
  split; [|split; [done|]].
  - rewrite trace_notify, calls_app. cbn [calls]. rewrite calls_Called.
    by rewrite listenerArray_subscribe.
  - rewrite Hls. intros Hin. apply list_elem_of_In, List.filter_In in Hin as [_ Hne].
    by rewrite Nat.eqb_refl in Hne.
Qed.

Lemma unsubscribe_removes_every_registration_witness :
  let w := subscribe 7 (subscribe 5 (AppState.new (λ _, []) (λ _, ""))) in
  calls (trace (notify (subscribe 5 w))) = calls (trace w) ++ listenerArray w ++ [5]
  ∧ listenerArray (unsubscribe 5 (subscribe 5 (subscribe 5 w)))
    = List.filter (λ x, negb (Nat.eqb x 5)) (listenerArray w)
  ∧ 5 ∉ listenerArray (unsubscribe 5 (subscribe 5 (subscribe 5 w))).
Proof.
  cbv zeta.
  apply (unsubscribe_removes_every_registration 5
           (subscribe 7 (subscribe 5 (AppState.new (λ _, []) (λ _, ""))))).
  eexists; reflexivity.
Defined.

(** ** AppState: the log *)

Lemma mutate_logs m w :
  logs (fields (mutate w m))
  = match m with
    | AddLog lvl msg => logs (fields w) ++ [mkLogEntry lvl msg (clock w (clockReads w))]
    | ClearLogs | Reset => []
    | _ => logs (fields w)
    end.
Proof. destruct m; cbn [mutate]; unfold_methods; by rewrite fields_notify. Qed.

Lemma mutate_selectedLogLevel_clock m w :
  clock (mutate w m) = clock w
  ∧ clockReads (mutate w m)
    = match m with AddLog _ _ => S (clockReads w) | _ => clockReads w end.
Proof.
  destruct m; cbn [mutate]; unfold_methods; by rewrite clock_notify, clockReads_notify.
Qed.

Lemma addLogs_spec batch : ∀ w,
  logs (fields (addLogs batch w))
  = logs (fields w) ++ stamped (clock w) (clockReads w) batch
  ∧ clockReads (addLogs batch w) = clockReads w + length batch
  ∧ length (notifications (trace (addLogs batch w)))
    = length (notifications (trace w)) + length batch.
Proof.
  unfold addLogs.
  induction batch as [|[lvl msg] batch IH]; intros w; cbn [fold_left stamped length].
  - by rewrite app_nil_r, !Nat.add_0_r.
  - destruct (IH (addLog lvl msg w)) as (Hlogs & Hreads & Hnote).
    pose proof (mutate_logs (AddLog lvl msg) w) as Hl.
    destruct (mutate_selectedLogLevel_clock (AddLog lvl msg) w) as [Hc Hr].
    pose proof (mutate_notifications (AddLog lvl msg) w) as Hn.
    cbn [mutate] in Hl, Hc, Hr, Hn.
    rewrite Hlogs, Hreads, Hnote, Hl, Hc, Hr, Hn, length_app. cbn [length].
    rewrite <- app_assoc. cbn [app]. repeat split; lia || done.
Qed.

Lemma length_stamped clock n batch : length (stamped clock n batch) = length batch.
Proof.
  revert n; induction batch as [|[lvl msg] batch IH]; intros n; cbn [stamped length]; [done|].
  by rewrite IH.
Qed.

(** X9. A batch of [addLog] calls appends one entry per call, in call
    order, behind the entries already stored, each stamped with its own
    reading of the clock, and notifies once per call. *)
Theorem addLog_appends_in_call_order (batch : list (string * string)) (w : World) :
  logs (fields (addLogs batch w))
  = logs (fields w) ++ stamped (clock w) (clockReads w) batch
  ∧ length (logs (fields (addLogs batch w))) = length (logs (fields w)) + length batch
  ∧ length (notifications (trace (addLogs batch w)))
    = length (notifications (trace w)) + length batch.
Proof.
  destruct (addLogs_spec batch w) as (Hlogs & _ & Hnote).
  split; [done|]. split; [|done].
  by rewrite Hlogs, length_app, length_stamped.
Qed.

(** X10. The log only ever shrinks by being emptied: over any sequence of
    mutation calls without [clearLogs] and [reset], the entries stored
    before are still there, in place, as a prefix of the log; [clearLogs]
    and [reset] leave the log empty. *)
Theorem log_only_shrinks_by_clearing (ms : list Mutation) (w : World) :
  Forall (λ m, keepsLog m = true) ms →
  logs (fields w) `prefix_of` logs (fields (interleave ms w))
  ∧ logs (fields (mutate (interleave ms w) ClearLogs)) = []
  ∧ logs (fields (mutate (interleave ms w) Reset)) = [].
Proof.
  intros Hkeep. split; [|split; apply mutate_logs].
  unfold interleave. revert w.
  induction Hkeep as [|m ms Hm _ IH]; intros w; cbn [fold_left]; [done|].
  etrans; [|apply IH]. rewrite mutate_logs.
  destruct m; try discriminate Hm; try reflexivity. by apply prefix_app_r.
Qed.

Lemma log_only_shrinks_by_clearing_witness :
  let w := addLog "INFO" "first" (AppState.new (λ _, []) (λ _, "t")) in
  let ms := [SetSelectedLogLevel "ERROR"; AddLog "ERROR" "second"; SetProcessing true] in
  logs (fields w) `prefix_of` logs (fields (interleave ms w))
  ∧ logs (fields (mutate (interleave ms w) ClearLogs)) = []
  ∧ logs (fields (mutate (interleave ms w) Reset)) = [].
Proof.
  apply (log_only_shrinks_by_clearing
           [SetSelectedLogLevel "ERROR"; AddLog "ERROR" "second"; SetProcessing true]
           (addLog "INFO" "first" (AppState.new (λ _, []) (λ _, "t")))).
  repeat constructor.
Defined.

(** ** The store seen through the log panel *)

Lemma interleave_notifications ms : ∀ w,
  notifications (trace (interleave ms w)) = notifications (trace w) ++ snapshots ms w.
Proof.
  unfold interleave.
  induction ms as [|m ms IH]; intros w; cbn [fold_left snapshots].
  - by rewrite app_nil_r.
  - rewrite IH, mutate_notifications. by rewrite <- app_assoc.
Qed.

Lemma update_in_step_same logs lvl s :
  is_Some (logsPanel (document s)) →
  lastRenderedCount (this s) = length logs →
  shown s = filterLogsByLevel logs (lastLogLevel (this s)) →
  Forall (λ log, classSafe (level log) = true) logs →
  shown (update logs lvl s) = filterLogsByLevel logs lvl.
Proof.
  intros Hs Hcount Hshown Hsafe.
  pose proof (update_in_step logs [] lvl s Hs Hcount Hshown Hsafe) as H.
  by rewrite app_nil_r in H.
Qed.

Lemma update_emptied lvl s :
  is_Some (logsPanel (document s)) →
  shown s = filterLogsByLevel [] (lastLogLevel (this s)) ∨ (0 < lastRenderedCount (this s))%nat →
  shown (update [] lvl s) = [].
Proof.
  intros Hs Hcase.
  destruct (decide (0 < lastRenderedCount (this s))%nat) as [Hpos|Hzero].
  - rewrite update_full; [apply shown_fullRender | done | by right].
  - destruct Hcase as [Hshown|Hpos]; [|lia].
    apply (update_in_step_same [] lvl s); [done | cbn; lia | done | constructor].
Qed.

Lemma updateComponents_inStep s w m :
  inStep s (fields w) → safeMutation m = true →
  inStep (updateComponents s (fields (mutate w m))) (fields (mutate w m))
  ∧ lastLogLevel (this (updateComponents s (fields (mutate w m))))
    = selectedLogLevel (fields (mutate w m)).
Proof.
  intros (Hs & Hcount & Hshown & Hsafe) Hm. unfold updateComponents.
  set (f' := fields (mutate w m)).
  assert (Forall (λ log, classSafe (level log) = true) (logs f')) as Hsafe'.
  { subst f'. rewrite mutate_logs. destruct m; try done.
    apply Forall_app. split; [done|]. by repeat constructor. }
  assert (shown (update (logs f') (selectedLogLevel f') s)
          = filterLogsByLevel (logs f') (selectedLogLevel f')) as Hshown'.
  { pose proof (mutate_logs m w) as Hlogs. fold f' in Hlogs.
    assert (logs f' = logs (fields w) ++ drop (length (logs (fields w))) (logs f')
            ∨ logs f' = []) as [Hgrow|Hgone].
    { rewrite Hlogs. destruct m; try (by right);
        left; by rewrite ?drop_app_length, ?drop_all, ?app_nil_r. }
    - rewrite Hgrow. by apply update_in_step.
    - rewrite Hgone. rewrite update_emptied; [done | done |].
      destruct (logs (fields w)) as [|log rest] eqn:Hl; [by left|].
      right. rewrite Hcount. cbn. lia. }
  split; [|by rewrite update_this].
  split; [by apply update_present|].
  split; [by rewrite update_this|].
  split; [|done]. by rewrite update_this.
Qed.

Lemma snapshots_inStep ms : ∀ w s,
  inStep s (fields w) →
  Forall (λ m, safeMutation m = true) ms →
  inStep (fold_left updateComponents (snapshots ms w) s) (fields (interleave ms w))
  ∧ (ms ≠ [] →
     lastLogLevel (this (fold_left updateComponents (snapshots ms w) s))
     = selectedLogLevel (fields (interleave ms w))).
Proof.
  induction ms as [|m ms IH]; intros w s Hstep Hsafe; cbn [snapshots fold_left].
  - done.
  - apply Forall_cons in Hsafe as [Hm Hms].
    destruct (updateComponents_inStep s w m Hstep Hm) as [Hstep1 Hlvl1].
    destruct (IH (mutate w m) _ Hstep1 Hms) as [Hstep' Hlvl'].
    change (interleave (m :: ms) w) with (interleave ms (mutate w m)).
    split; [done|]. intros _.
    destruct ms as [|m' ms']; [done|]. by apply Hlvl'.
Qed.

(** X11. A session of the shell, from a new store and a freshly rendered
    log panel: after any sequence of mutation calls (entries added, log
    cleared, threshold changed, reset, anything else), provided no added
    entry has a level that yields the class [log-empty], the log panel as
    the shell's listener has updated it on every notification shows
    exactly the entries of the store's log that the store's threshold
    admits, in log order. *)
Theorem panel_follows_store
    (callbacks : Listener → list Action) (clock : nat → string) (ms : list Mutation) :
  Forall (λ m, safeMutation m = true) ms →
  let w := interleave ms (AppState.new callbacks clock) in
  shown (replay (trace w) freshScreen)
  = filterLogsByLevel (logs (fields w)) (selectedLogLevel (fields w)).
Proof.
  intros Hsafe w. subst w. unfold replay. rewrite interleave_notifications.
  cbn [app notifications trace AppState.new].
  destruct (snapshots_inStep ms (AppState.new callbacks clock) freshScreen)
    as [(_ & _ & Hshown & _) Hlvl]; [|done|].
  { split; [by eexists|]. split; [done|]. split; [done|constructor]. }
  rewrite Hshown. destruct ms as [|m ms]; [done|]. by rewrite Hlvl.
Qed.

Lemma panel_follows_store_witness :
  let ms := [AddLog "INFO" "a"; AddLog "ERROR" "b"; SetSelectedLogLevel "INFO";
             AddLog "WARN" "c"; ClearLogs; AddLog "WARNING" "d"; Reset; AddLog "ERROR" "e"] in
  let w := interleave ms (AppState.new (λ _, []) (λ _, "t")) in
  shown (replay (trace w) freshScreen)
  = filterLogsByLevel (logs (fields w)) (selectedLogLevel (fields w)).
Proof.
  apply (panel_follows_store (λ _, []) (λ _, "t")
           [AddLog "INFO" "a"; AddLog "ERROR" "b"; SetSelectedLogLevel "INFO";
            AddLog "WARN" "c"; ClearLogs; AddLog "WARNING" "d"; Reset; AddLog "ERROR" "e"]).
  repeat constructor.
Defined.

(** ** The shell: input handlers *)

Lemma fields_handleUserInput backend during p w :
  fields (handleUserInput backend during p w)
  = let f := fields (interleave during w) in
    let ts := clock (interleave during w) (clockReads (interleave during w)) in
    match handle_user_input backend p with
    | Resolved normalizedPath =>
        mkFields (Some normalizedPath) (isProcessing f)
          (logs f ++ [mkLogEntry "INFO" ("Selected: " +:+ normalizedPath) ts])
          (processingResult f) (selectedLogLevel f) (progressCurrent f) (progressTotal f)
          (currentTaskCategory f) (statusMessage f)
    | Rejected error =>
        mkFields (selectedPath f) (isProcessing f)
          (logs f ++ [mkLogEntry "ERROR" ("Invalid path: " +:+ error) ts])
          (processingResult f) (selectedLogLevel f) (progressCurrent f) (progressTotal f)
          (currentTaskCategory f) (statusMessage f)
    end.
Proof.
  unfold handleUserInput. cbv zeta.
  destruct (handle_user_input backend p) as [normalizedPath|error].
  - rewrite fields_addLog, fields_setSelectedPath. cbn [selectedPath isProcessing
      logs processingResult selectedLogLevel progressCurrent progressTotal
      currentTaskCategory statusMessage].
    unfold setSelectedPath. by rewrite clock_notify, clockReads_notify.
  - by rewrite fields_addLog.
Qed.

(** X12. [handleUserInput]: when the backend accepts the path, the
    selection becomes the normalised path it returned and the log gains
    the INFO entry "Selected: ..."; when it rejects it, the selection stays
    what it was and the log gains the ERROR entry "Invalid path: ...".
    Either way one entry is appended and no other field is written. *)
Theorem handleUserInput_outcome
    (backend : Backend) (during : list Mutation) (p : string) (w : World) :
  let w0 := interleave during w in
  let w' := handleUserInput backend during p w in
  let ts := clock w0 (clockReads w0) in
  jobFields (fields w') = jobFields (fields w0)
  ∧ match handle_user_input backend p with
    | Resolved normalizedPath =>
        selectedPath (fields w') = Some normalizedPath
        ∧ logs (fields w')
          = logs (fields w0) ++ [mkLogEntry "INFO" ("Selected: " +:+ normalizedPath) ts]
    | Rejected error =>
        selectedPath (fields w') = selectedPath (fields w0)
        ∧ logs (fields w')
          = logs (fields w0) ++ [mkLogEntry "ERROR" ("Invalid path: " +:+ error) ts]
    end.
Proof.
  cbv zeta. rewrite fields_handleUserInput. cbv zeta.
  by destruct (handle_user_input backend p).
Qed.

(** One method call at a time: rewrite the outermost call, then project. *)
Ltac store_step :=
  first [ rewrite fields_setProcessing | rewrite fields_setStatusMessage
        | rewrite fields_addLog | rewrite fields_setProcessingResult
        | rewrite fields_updateProgress | rewrite fields_setSelectedPath ];
  cbn [selectedPath isProcessing logs processingResult selectedLogLevel
       progressCurrent progressTotal currentTaskCategory statusMessage].

Lemma startProcessing_settle_resolved result w :
  let n := length (entries result) in
  let k := length (List.filter (λ e, String.eqb (processed e) "Yes") (entries result)) in
  let w' := startProcessing_settle (Resolved result) w in
  processingResult (fields w') = Some result
  ∧ isProcessing (fields w') = false
  ∧ statusMessage (fields w')
    = "Processed " +:+ pretty k +:+ " of " +:+ pretty n +:+ " files." +:+ newline +:+ newline
      +:+ "<strong>Staging Folder:</strong> " +:+ staging_path result +:+ newline
      +:+ "<strong>LLM Output Folder:</strong> " +:+ llm_output_path result +:+ newline
      +:+ "<strong>Report File:</strong> " +:+ report_path result
  ∧ logs (fields w')
    = logs (fields w)
      ++ [mkLogEntry "INFO"
            ("Processing complete. Found " +:+ pretty n +:+ " files, "
             +:+ pretty k +:+ " processed.")
            (clock (setProcessingResult (Some result) w)
               (clockReads (setProcessingResult (Some result) w)))].
Proof.
  cbv zeta. unfold startProcessing_settle. repeat split; by repeat store_step.
Qed.

(** X13. A job that the backend completes: [startProcessing], run from an
    idle store with a selected path, ends with the result stored, with
    [isProcessing] false, with the status message "Processed k of n
    files." followed by the three output locations, and with the INFO
    entry "Processing complete. Found n files, k processed." last in the
    log, where n is the number of entries of the result and k, at most n,
    the number of those whose [processed] is "Yes". *)
Theorem startProcessing_reports_counts
    (backend : Backend) (during : list Mutation) (w : World) (result : ProcessingResult) :
  canStart w →
  start_processing backend (selectedPath (fields w)) = Resolved result →
  let w' := startProcessing backend during w in
  let n := length (entries result) in
  let k := length (List.filter (λ e, String.eqb (processed e) "Yes") (entries result)) in
  (k ≤ n)%nat
  ∧ processingResult (fields w') = Some result
  ∧ isProcessing (fields w') = false
  ∧ statusMessage (fields w')
    = "Processed " +:+ pretty k +:+ " of " +:+ pretty n +:+ " files." +:+ newline +:+ newline
      +:+ "<strong>Staging Folder:</strong> " +:+ staging_path result +:+ newline
      +:+ "<strong>LLM Output Folder:</strong> " +:+ llm_output_path result +:+ newline
      +:+ "<strong>Report File:</strong> " +:+ report_path result
  ∧ ∃ older ts,
      logs (fields w')
      = older ++ [mkLogEntry "INFO"
                    ("Processing complete. Found " +:+ pretty n +:+ " files, "
                     +:+ pretty k +:+ " processed.") ts].
Proof.
  intros Hstart Hresolved w' n k. subst w' n k.
  rewrite startProcessing_started by done. rewrite Hresolved.
  split; [apply List.filter_length_le|].
  destruct (startProcessing_settle_resolved result
              (interleave during (startProcessing_begin w))) as (H1 & H2 & H3 & H4).
  rewrite H1, H2, H3, H4. repeat split; eauto.
Qed.

Lemma startProcessing_reports_counts_witness :
  let entry yes := mkReportModel "f" None yes None "f" "pdf" 1 "1 B" "" "" in
  let result := mkProcessingResult [entry "Yes"; entry "No"; entry "Yes"] "/s" "/l" "/r" in
  let backend := mkBackend Resolved (λ _, Resolved result) in
  let w := setSelectedPath (Some "/x") (AppState.new (λ _, []) (λ _, "")) in
  let w' := startProcessing backend [] w in
  processingResult (fields w') = Some result
  ∧ isProcessing (fields w') = false
  ∧ statusMessage (fields w')
    = "Processed 2 of 3 files." +:+ newline +:+ newline
      +:+ "<strong>Staging Folder:</strong> /s" +:+ newline
      +:+ "<strong>LLM Output Folder:</strong> /l" +:+ newline
      +:+ "<strong>Report File:</strong> /r".
Proof.
  cbv zeta.
  pose proof (startProcessing_reports_counts
    (mkBackend Resolved
       (λ _, Resolved (mkProcessingResult
          [mkReportModel "f" None "Yes" None "f" "pdf" 1 "1 B" "" "";
           mkReportModel "f" None "No" None "f" "pdf" 1 "1 B" "" "";
           mkReportModel "f" None "Yes" None "f" "pdf" 1 "1 B" "" ""] "/s" "/l" "/r")))
    [] (setSelectedPath (Some "/x") (AppState.new (λ _, []) (λ _, "")))
    (mkProcessingResult
       [mkReportModel "f" None "Yes" None "f" "pdf" 1 "1 B" "" "";
        mkReportModel "f" None "No" None "f" "pdf" 1 "1 B" "" "";
        mkReportModel "f" None "Yes" None "f" "pdf" 1 "1 B" "" ""] "/s" "/l" "/r")
    ltac:(split; reflexivity) eq_refl) as H.
  cbv zeta in H. destruct H as (_ & H1 & H2 & H3 & _).
  split; [exact H1|]. split; [exact H2|]. exact H3.
Defined.

Lemma jobFields_addLog lvl msg w :
  jobFields (fields (addLog lvl msg w)) = jobFields (fields w)
  ∧ logs (fields w) `prefix_of` logs (fields (addLog lvl msg w)).
Proof. rewrite fields_addLog. split; [done | by apply prefix_app_r]. Qed.

Lemma jobFields_handleUserInput backend p w :
  jobFields (fields (handleUserInput backend [] p w)) = jobFields (fields w)
  ∧ logs (fields w) `prefix_of` logs (fields (handleUserInput backend [] p w)).
Proof.
  rewrite fields_handleUserInput. cbv zeta. cbn [interleave fold_left].
  destruct (handle_user_input backend p); (split; [done | by apply prefix_app_r]).
Qed.

Lemma frame_trans (w1 w2 w3 : World) :
  jobFields (fields w2) = jobFields (fields w1)
  ∧ logs (fields w1) `prefix_of` logs (fields w2) →
  jobFields (fields w3) = jobFields (fields w2)
  ∧ logs (fields w2) `prefix_of` logs (fields w3) →
  jobFields (fields w3) = jobFields (fields w1)
  ∧ logs (fields w1) `prefix_of` logs (fields w3).
Proof. intros [H1 P1] [H2 P2]. split; [congruence | by etrans]. Qed.

Lemma dropItems_frame backend e w :
  jobFields (fields (dropItems backend [] e w)) = jobFields (fields w)
  ∧ logs (fields w) `prefix_of` logs (fields (dropItems backend [] e w)).
Proof.
  unfold dropItems. destruct (dataTransfer e ≫= _) as [p|].
  - eapply frame_trans; [apply jobFields_addLog | apply jobFields_handleUserInput].
  - apply jobFields_addLog.
Qed.

Lemma onDrop_frame backend e w :
  jobFields (fields (onDrop backend [] e w)) = jobFields (fields w)
  ∧ logs (fields w) `prefix_of` logs (fields (onDrop backend [] e w)).
Proof.
  unfold onDrop.
  destruct (files <$> dataTransfer e) as [[|file rest]|]; try apply dropItems_frame.
  destruct (truthyOpt (path file)) eqn:Hpath.
  - destruct (path file) as [p|]; [|done]. cbn in Hpath. rewrite Hpath.
    eapply frame_trans; [apply jobFields_addLog | apply jobFields_handleUserInput].
  - destruct (truthy (webkitRelativePath file)) eqn:Hrel.
    + rewrite Hrel.
      eapply frame_trans; [apply jobFields_addLog | apply jobFields_handleUserInput].
    + destruct (truthy (name file)).
      * eapply frame_trans; [apply jobFields_addLog | apply dropItems_frame].
      * apply dropItems_frame.
Qed.

(** X14. The ways a path comes in (a drop on the drop zone, a native drop,
    the two Browse dialogs), when no other handler runs meanwhile, never
    write [isProcessing], the result, the threshold, the progress or the
    status message, and never remove or change a stored log entry: they
    can only set the selection and append to the log. *)
Theorem input_handlers_only_select_and_log
    (backend : Backend) (e : DragEvent) (native : DragDropEvent) (dragOver : option bool)
    (failure : string) (dialog : Settled Selection) (w : World) :
  (jobFields (fields (onDrop backend [] e w)) = jobFields (fields w)
   ∧ logs (fields w) `prefix_of` logs (fields (onDrop backend [] e w)))
  ∧ (let w' := snd (onDragDropEvent backend [] native dragOver w) in
     jobFields (fields w') = jobFields (fields w)
     ∧ logs (fields w) `prefix_of` logs (fields w'))
  ∧ (let w' := browse failure [] dialog backend [] w in
     jobFields (fields w') = jobFields (fields w)
     ∧ logs (fields w) `prefix_of` logs (fields w')).
Proof.
  split; [apply onDrop_frame|]. split; cbv zeta.
  - destruct native as [| | |[|p rest]]; cbn [onDragDropEvent snd]; try done.
    + apply jobFields_addLog.
    + eapply frame_trans; [apply jobFields_addLog | apply jobFields_handleUserInput].
  - unfold browse. cbn [interleave fold_left].
    destruct dialog as [[|p|[|p rest]]|error]; try done.
    + destruct (truthy p); [apply jobFields_handleUserInput | done].
    + apply jobFields_handleUserInput.
    + apply jobFields_addLog.
Qed.

(** A dialog that is cancelled, or that comes back with an empty
    string or an empty list, is not an error: the Browse handlers then
    leave the store exactly as it was, without a log entry and without a
    notification.  A dialog that fails is logged as one ERROR entry and
    changes nothing else. *)
Lemma cancelled_dialog_changes_nothing
    (failure : string) (backend : Backend) (during : list Mutation) (w : World) :
  Forall (λ dialog, browse failure [] (Resolved dialog) backend during w = w)
    [NoSelection; OnePath ""; PathList []]
  ∧ ∀ error,
      let w' := browse failure [] (Rejected error) backend during w in
      selectedPath (fields w') = selectedPath (fields w)
      ∧ jobFields (fields w') = jobFields (fields w)
      ∧ logs (fields w')
        = logs (fields w) ++ [mkLogEntry "ERROR" (failure +:+ error) (clock w (clockReads w))].
Proof.
  split; [by repeat constructor|].
  intros error. cbv zeta. unfold browse. cbn [interleave fold_left].
  by rewrite fields_addLog.
Qed.

(** ** The shell: what the page offers *)

(** X15. After [updateUI], the GO button (when the page has one) can be
    clicked exactly when a path is selected, no job is running and no
    result is stored.  So whenever the button can be clicked the guard of
    [startProcessing] holds and there is no earlier result left to clear;
    and a click while the guard fails leaves the store as it was. *)
Theorem go_button_offered_iff_startable
    (backend : Backend) (during : list Mutation) (p : ShellPage) (w : World) :
  is_Some (goButton p) →
  (goClickable (updateUI (fields w) p) = true
   ↔ canStart w ∧ processingResult (fields w) = None)
  ∧ (goClickable (updateUI (fields w) p) = true →
     goClick backend during w
     = startProcessing_settle (start_processing backend (selectedPath (fields w)))
         (interleave during (startProcessing_begin w)))
  ∧ (truthyOpt (selectedPath (fields w)) = false ∨ isProcessing (fields w) = true →
     goClick backend during w = w).
Proof.
  intros [b Hb].
  assert (goClickable (updateUI (fields w) p) = true
          ↔ canStart w ∧ processingResult (fields w) = None) as Hiff.
  { unfold canStart, goClickable, updateUI.
    destruct (fields w) as [sel proc lg res lvl cur tot cat msg]. cbn.
    destruct sel as [sel|]; [destruct (truthy sel) eqn:Hsel|]; cbn; rewrite Hb; cbn;
      unfold truthy in *.
    - destruct proc, res; cbn; split; intros H; try done; try (by destruct H as [[_ ?] ?]).
    - split; [done | intros [[H _] _]; congruence].
    - split; [done | by intros [[? _] _]]. }
  split; [done|]. split.
  - intros Hclick. apply Hiff in Hclick as [Hstart _].
    unfold goClick. destruct Hstart as [Hsel Hidle]. rewrite Hsel, Hidle. cbn [negb andb].
    by apply startProcessing_started.
  - intros Hno. unfold goClick.
    destruct Hno as [-> | ->]; [done | by rewrite andb_false_r].
Qed.

Lemma go_button_offered_iff_startable_witness :
  let backend := mkBackend Resolved (λ _, Rejected "no engine") in
  let w := setSelectedPath (Some "/x") (AppState.new (λ _, []) (λ _, "")) in
  (goClickable (updateUI (fields w) initialPage) = true
   ↔ canStart w ∧ processingResult (fields w) = None)
  ∧ goClickable (updateUI (fields w) initialPage) = true.
Proof.
  cbv zeta. split; [|reflexivity].
  apply (go_button_offered_iff_startable
           (mkBackend Resolved (λ _, Rejected "no engine")) []
           initialPage (setSelectedPath (Some "/x") (AppState.new (λ _, []) (λ _, "")))).
  eexists; reflexivity.
Defined.

Lemma updateUI_twice f p : updateUI f (updateUI f p) = updateUI f p.
Proof.
  unfold updateUI.
  destruct (selectedPath f) as [sel|]; [destruct (truthy sel)|];
    destruct p as [[go|] [so|] [sd|] [st|] [dz|] [ra|]]; reflexivity.
Qed.

Lemma progress_update_twice js current total cat processing msg p :
  ProgressPanel.update js current total cat processing msg
    (ProgressPanel.update js current total cat processing msg p)
  = ProgressPanel.update js current total cat processing msg p.
Proof.
  unfold ProgressPanel.update, ProgressPanel.setWidthPercent.
  destruct processing; destruct p as [[ps|] [sm|] [bf|] [pt|] [tc|]]; try reflexivity;
    cbn; destruct (Z.ltb 0 total); try reflexivity;
    destruct (Z.leb 0 _); reflexivity.
Qed.

(** X16. The shell's listener is idempotent: running [updateUI] and
    [updateComponents] a second time on unchanged fields changes nothing on
    the page, in the log panel or in the progress panel, whichever of their
    elements exist.  (The store notifies without comparing values, so this
    is what a redundant notification costs: nothing.) *)
Theorem listener_idempotent (js : ProgressPanel.Numbers) (f : Fields) (r : Rendering) :
  onStateChange js f (onStateChange js f r) = onStateChange js f r.
Proof.
  unfold onStateChange, ProgressPanel.updateFrom.
  cbn [shellPage logScreen progressPage].
  by rewrite updateUI_twice, update_twice, progress_update_twice.
Qed.

(** ** ProgressPanel *)

(** X17. While a job is running, the progress panel shows what its
    latest call wrote, with one exception.  An update with [isProcessing]
    true overwrites the visibility of the section, the status message, the
    counter text, the task category, and the opacity and the
    [indeterminate] class of the bar, whatever an earlier update wrote.
    The width of the bar is overwritten too unless the total is positive
    and the rounded percentage negative (a negative [current]): then the
    page drops the assignment and the bar keeps the width the earlier
    update left.  So when the total is not positive or the percentage is
    not negative, the panel depends on the latest call only.  An update
    with [isProcessing] false writes the visibility of the section and the
    status message only and leaves the bar, the counter text and the task
    category as the last running update left them. *)
Theorem progress_shows_latest_while_processing
    (js : ProgressPanel.Numbers) (current total current0 total0 : Z)
    (cat msg cat0 msg0 : string) (processing0 : bool) (p : ProgressPanel.Page) :
  let earlier := ProgressPanel.update js current0 total0 cat0 processing0 msg0 p in
  let later := ProgressPanel.update js current total cat true msg earlier in
  let direct := ProgressPanel.update js current total cat true msg p in
  let dropped :=
    Z.ltb 0 total && Z.ltb (ProgressPanel.roundedPercent js current total) 0 in
  (ProgressPanel.progressSection later = ProgressPanel.progressSection direct
   ∧ ProgressPanel.statusMessageEl later = ProgressPanel.statusMessageEl direct
   ∧ ProgressPanel.progressText later = ProgressPanel.progressText direct
   ∧ ProgressPanel.taskCategoryElement later = ProgressPanel.taskCategoryElement direct
   ∧ ProgressPanel.opacity <$> ProgressPanel.progressBarFill later
     = ProgressPanel.opacity <$> ProgressPanel.progressBarFill direct
   ∧ ProgressPanel.indeterminate <$> ProgressPanel.progressBarFill later
     = ProgressPanel.indeterminate <$> ProgressPanel.progressBarFill direct
   ∧ ProgressPanel.width <$> ProgressPanel.progressBarFill later
     = ProgressPanel.width
         <$> ProgressPanel.progressBarFill (if dropped then earlier else direct))
  ∧ (dropped = false → later = direct)
  ∧ (let p' := ProgressPanel.update js current total cat false msg p in
     ProgressPanel.progressBarFill p' = ProgressPanel.progressBarFill p
     ∧ ProgressPanel.progressText p' = ProgressPanel.progressText p
     ∧ ProgressPanel.taskCategoryElement p' = ProgressPanel.taskCategoryElement p
     ∧ ProgressPanel.progressSection p'
       = (λ _, Some "none") <$> ProgressPanel.progressSection p).
Proof.
  cbv zeta. split; [|split; [|done]].
  - unfold ProgressPanel.update, ProgressPanel.setWidthPercent.
    destruct (Z.ltb_spec 0 total) as [Htotal|Htotal]; cbn [andb].
    + destruct (Z.ltb_spec (ProgressPanel.roundedPercent js current total) 0) as [Hneg|Hpos].
      * assert (Z.leb 0 (Z.min 100 (ProgressPanel.roundedPercent js current total)) = false)
          as -> by (apply Z.leb_gt; lia).
        destruct processing0; destruct p as [[ps|] [sm|] [bf|] [pt|] [tc|]]; cbn;
          repeat split; try reflexivity.
      * assert (Z.leb 0 (Z.min 100 (ProgressPanel.roundedPercent js current total)) = true)
          as -> by (apply Z.leb_le; lia).
        destruct processing0; destruct p as [[ps|] [sm|] [bf|] [pt|] [tc|]]; cbn;
          repeat split; reflexivity.
    + destruct processing0; destruct p as [[ps|] [sm|] [bf|] [pt|] [tc|]]; cbn;
        repeat split; reflexivity.
  - intros Hkept.
    unfold ProgressPanel.update, ProgressPanel.setWidthPercent.
    destruct (Z.ltb_spec 0 total) as [Htotal|Htotal]; cbn [andb] in Hkept.
    + apply Z.ltb_ge in Hkept.
      assert (Z.leb 0 (Z.min 100 (ProgressPanel.roundedPercent js current total)) = true)
        as -> by (apply Z.leb_le; lia).
      destruct processing0; destruct p as [[ps|] [sm|] [bf|] [pt|] [tc|]]; reflexivity.
    + destruct processing0; destruct p as [[ps|] [sm|] [bf|] [pt|] [tc|]]; reflexivity.
Qed.

Lemma progress_shows_latest_while_processing_witness :
  let js := ProgressPanel.mkNumbers (λ current total, ((200 * current + total) / (2 * total))%Z)
              pretty in
  ProgressPanel.update js 1 2 "Converting" true ""
    (ProgressPanel.update js (-1) 2 "Scanning" true "" ProgressPanel.render)
  = ProgressPanel.update js 1 2 "Converting" true "" ProgressPanel.render
  ∧ ProgressPanel.width
      <$> ProgressPanel.progressBarFill
            (ProgressPanel.update js (-1) 2 "Scanning" true ""
               (ProgressPanel.update js 1 2 "Converting" true "" ProgressPanel.render))
    = Some "50%".
Proof.
  cbv zeta. split.
  - apply (progress_shows_latest_while_processing
             (ProgressPanel.mkNumbers
                (λ current total, ((200 * current + total) / (2 * total))%Z) pretty)
             1 2 (-1) 2 "Converting" "" "Scanning" "" true ProgressPanel.render).
    reflexivity.
  - vm_compute. reflexivity.
Defined.

(** ** FileConversionView *)

Module ViewFacts.
Import FileConversionView.

Lemma updateLogDisplay_upToDate js v :
  is_Some (logPanel v) → upToDate js (updateLogDisplay js v).
Proof. intros [text Hp]. unfold upToDate, updateLogDisplay. by rewrite Hp. Qed.

Lemma appendLog_upToDate js msg lvl v : upToDate js v → upToDate js (appendLog js msg lvl v).
Proof.
  intros Hv. unfold appendLog. rewrite Hv. by apply updateLogDisplay_upToDate; eexists.
Qed.

Lemma displayText_nil js b : displayText js b [] = "".
Proof. by destruct b. Qed.

Lemma handle_upToDate js v e : upToDate js v → upToDate js (handle js v e).
Proof.
  intros Hv. pose proof Hv as Hp. unfold upToDate in Hp.
  destruct e as [entry| |checked|dialog|dialog]; cbn [handle].
  - apply updateLogDisplay_upToDate. cbn. rewrite Hp. by eexists.
  - unfold upToDate. cbn. by rewrite Hp, displayText_nil.
  - apply updateLogDisplay_upToDate. cbn. rewrite Hp. by eexists.
  - destruct dialog as [[|p|[|p rest]]|error]; cbn [picked]; try done.
    + by destruct (truthy p).
    + by apply appendLog_upToDate.
  - destruct dialog as [[|p|[|p rest]]|error]; cbn [picked]; try done.
    + by destruct (truthy p).
    + by apply appendLog_upToDate.
Qed.

Lemma startConversion_upToDate js value v :
  upToDate js v → upToDate js (startConversion value v).
Proof. intros Hv. exact Hv. Qed.

Lemma conversions_upToDate js values : ∀ v,
  upToDate js v → upToDate js (fold_left (λ v value, startConversion value v) values v).
Proof.
  induction values as [|value values IH]; intros v Hv; cbn [fold_left]; [done|].
  apply IH. by apply startConversion_upToDate.
Qed.

Lemma step_upToDate js v s : upToDate js v → upToDate js (step js v s).
Proof.
  intros Hv. destruct s as [e| |registration|conversion]; cbn [step].
  - by apply handle_upToDate.
  - destruct (startButton v) as [[|]|]; try done. unfold startClick.
    destruct (inputField v) as [raw|]; [|done].
    destruct (negb (truthy (trim js raw))); [by apply appendLog_upToDate|].
    destruct (listenerSettled v); [by apply startConversion_upToDate | exact Hv].
  - unfold listenSettled. destruct (listenerSettled v); [done|].
    apply conversions_upToDate.
    destruct registration as [[]|error]; [exact Hv|].
    exact (appendLog_upToDate js _ _ v Hv).
  - destruct (converting v) as [|n]; [done|]. unfold endConversion.
    destruct conversion as [[]|error]; [exact Hv|].
    exact (appendLog_upToDate js _ _ v Hv).
Qed.

Lemma updateLogDisplay_control js v : control (updateLogDisplay js v) = control v.
Proof. unfold updateLogDisplay. by destruct (logPanel v). Qed.

Lemma appendLog_control js msg lvl v : control (appendLog js msg lvl v) = control v.
Proof.
  unfold appendLog. destruct (logPanel v); [|done]. by rewrite updateLogDisplay_control.
Qed.

Lemma handle_control js v e : control (handle js v e) = control v.
Proof.
  destruct e as [entry| |checked|dialog|dialog]; cbn [handle].
  - by rewrite updateLogDisplay_control.
  - done.
  - by rewrite updateLogDisplay_control.
  - destruct dialog as [[|p|[|p rest]]|error]; cbn [picked]; try done;
      try (by destruct (truthy p)); apply appendLog_control.
  - destruct dialog as [[|p|[|p rest]]|error]; cbn [picked]; try done;
      try (by destruct (truthy p)); apply appendLog_control.
Qed.

Lemma control_fields v v' :
  control v' = control v →
  startButton v' = startButton v ∧ invoked v' = invoked v
  ∧ listenerSettled v' = listenerSettled v ∧ waiting v' = waiting v
  ∧ converting v' = converting v.
Proof. unfold control. by intros [= -> -> -> -> ->]. Qed.

Lemma orderly_control v v' : control v' = control v → orderly v → orderly v'.
Proof.
  intros (Hb & Hi & Hl & Hw & Hc)%control_fields. unfold orderly.
  by rewrite Hb, Hi, Hl, Hw, Hc.
Qed.

Lemma conversions_spec values : ∀ v,
  let v' := fold_left (λ v value, startConversion value v) values v in
  invoked v' = invoked v ++ values
  ∧ converting v' = converting v + length values
  ∧ waiting v' = waiting v
  ∧ listenerSettled v' = listenerSettled v
  ∧ (is_Some (startButton v) → is_Some (startButton v'))
  ∧ (values = [] → startButton v' = startButton v).
Proof.
  induction values as [|value values IH]; intros v; cbn [fold_left].
  - cbv zeta. rewrite app_nil_r, Nat.add_0_r. by repeat split.
  - destruct (IH (startConversion value v)) as (Hi & Hc & Hw & Hl & Hb & _).
    cbv zeta. rewrite Hi, Hc, Hw, Hl. cbn.
    rewrite <- app_assoc. repeat split; try done; try lia.
    intros [d Hd]. apply Hb. cbn. rewrite Hd. by eexists.
Qed.

Lemma requests_cons js s rest v :
  requests js (s :: rest) v = requests js [s] v ++ requests js rest (step js v s).
Proof. cbn [requests]. by destruct s, (requested js v). Qed.

Lemma step_orderly js v s :
  orderly v →
  orderly (step js v s)
  ∧ invoked (step js v s) ++ waiting (step js v s)
    = (invoked v ++ waiting v) ++ requests js [s] v.
Proof.
  intros Hv. pose proof Hv as (Hb & Hw & Hp & He & Hc).
  destruct s as [e| |registration|conversion]; cbn [step requests].
  - destruct (control_fields _ _ (handle_control js v e)) as (_ & Hi' & _ & Hw' & _).
    split; [by eapply orderly_control; [apply handle_control|]|].
    by rewrite Hi', Hw', app_nil_r.
  - unfold requested. destruct (startButton v) as [[|]|] eqn:Hbutton;
      try (by rewrite app_nil_r).
    unfold startClick. destruct (inputField v) as [raw|]; [|by rewrite app_nil_r].
    destruct (truthy (trim js raw)) eqn:Hvalue; cbn [negb].
    + destruct (listenerSettled v) eqn:Hsettled.
      * pose proof (Hw eq_refl) as Hnone. rewrite Hnone, app_nil_r in Hp.
        unfold orderly, startConversion, setDisabled.
        cbn [startButton invoked listenerSettled waiting converting allLogs].
        rewrite Hbutton, Hnone, !app_nil_r. cbn [fmap option_fmap option_map].
        split; [|done]. split; [by eexists|]. split; [done|].
        split; [apply Forall_app; split; [done | by constructor]|].
        split; [done|]. rewrite length_app. cbn. lia.
      * unfold orderly.
        cbn [startButton invoked listenerSettled waiting converting allLogs].
        rewrite Hbutton. split; [|by rewrite app_assoc].
        split; [done|]. split; [done|].
        split; [rewrite app_assoc; apply Forall_app; split; [done | by constructor]|].
        by split.
    + assert (control (appendLog js
                "Please provide an input path before starting conversion." "INFO" v)
              = control v) as Hcontrol by apply appendLog_control.
      split; [by eapply orderly_control|].
      apply control_fields in Hcontrol as (_ & Hi' & _ & Hw' & _).
      by rewrite Hi', Hw', app_nil_r.
  - rewrite app_nil_r. unfold listenSettled.
    destruct (listenerSettled v) eqn:Hsettled; [done|].
    set (v1 := match registration with
               | Resolved _ => v
               | Rejected error => appendLog js _ "ERROR" v
               end).
    assert (control v1 = control v) as Hcontrol.
    { subst v1. destruct registration; [done | apply appendLog_control]. }
    apply control_fields in Hcontrol as (Hb1 & Hi1 & _ & Hw1 & Hc1).
    set (v2 := mkView _ _ _ _ _ _ _ true [] _).
    destruct (conversions_spec (waiting v1) v2) as (Hi2 & Hc2 & Hw2 & Hl2 & Hb2 & Hsame).
    cbv zeta in Hi2, Hc2, Hw2, Hl2, Hb2, Hsame.
    set (v3 := fold_left _ (waiting v1) v2) in *.
    assert (invoked v2 = invoked v ∧ waiting v2 = [] ∧ converting v2 = converting v
            ∧ startButton v2 = startButton v) as (Hi0 & Hw0 & Hc0 & Hb0)
      by (subst v2; cbn; by rewrite Hi1, Hc1, Hb1).
    rewrite Hi0, Hw1 in Hi2. rewrite Hc0, Hw1 in Hc2. rewrite Hw0 in Hw2.
    rewrite Hb0 in Hb2. rewrite Hw1, Hb0 in Hsame.
    unfold orderly. rewrite Hi2, Hw2, Hc2, Hl2, app_nil_r.
    split; [|done]. split; [by apply Hb2|]. split; [done|]. split; [done|].
    split.
    + intros Hzero.
      assert (waiting v = []) as Hnone
        by (destruct (waiting v); [done | cbn in Hzero; lia]).
      rewrite (Hsame Hnone). apply He. rewrite Hnone in Hzero. cbn in Hzero. lia.
    + rewrite length_app. lia.
  - rewrite app_nil_r. destruct (converting v) as [|n] eqn:Hconv; [done|].
    unfold endConversion.
    set (v1 := match conversion with
               | Resolved _ => v
               | Rejected error => appendLog js _ "ERROR" v
               end).
    assert (control v1 = control v) as Hcontrol.
    { subst v1. destruct conversion; [done | apply appendLog_control]. }
    apply control_fields in Hcontrol as (Hb1 & Hi1 & Hl1 & Hw1 & Hc1).
    unfold orderly, setDisabled.
    cbn [startButton invoked listenerSettled waiting converting allLogs].
    rewrite Hb1, Hi1, Hl1, Hw1, Hc1, Hconv. cbn [Nat.pred].
    split; [|done]. destruct Hb as [d Hd]. rewrite Hd. cbn [fmap option_fmap option_map].
    split; [by eexists|]. split; [done|]. split; [done|]. split; [done|]. lia.
Qed.

Lemma steps_orderly js steps : ∀ v,
  orderly v →
  orderly (fold_left (step js) steps v)
  ∧ invoked (fold_left (step js) steps v) ++ waiting (fold_left (step js) steps v)
    = (invoked v ++ waiting v) ++ requests js steps v.
Proof.
  induction steps as [|s steps IH]; intros v Hv; cbn [fold_left].
  - by rewrite app_nil_r.
  - destruct (step_orderly js v s Hv) as [Hv' Hstep].
    destruct (IH _ Hv') as [Hend Hrest].
    split; [done|]. by rewrite Hrest, Hstep, (requests_cons js s steps v), <- !app_assoc.
Qed.

Lemma render_orderly : orderly render.
Proof.
  unfold orderly, render. cbn. by repeat split.
Qed.

End ViewFacts.

(** X18. In the file-conversion view, after any sequence of events
    (backend log entries, a failed listener registration, Clear, the debug
    checkbox, the Browse dialogs, clicks on Start with anything happening
    while they wait), the log panel shows exactly the stored entries as
    [updateLogDisplay] formats them under the current debug setting: the
    text is never out of date with [allLogs]. *)
Theorem view_log_is_never_stale
    (js : FileConversionView.Platform) (steps : list FileConversionView.Step) :
  FileConversionView.upToDate js
    (fold_left (FileConversionView.step js) steps FileConversionView.render).
Proof.
  assert (∀ v, FileConversionView.upToDate js v →
               FileConversionView.upToDate js
                 (fold_left (FileConversionView.step js) steps v)) as Hgen.
  { induction steps as [|s steps IH]; intros v Hv; cbn [fold_left]; [done|].
    apply IH. by apply ViewFacts.step_upToDate. }
  by apply Hgen.
Qed.

(** X19. Showing the debug entries and hiding them again (or the other
    way round) brings back exactly the view there was, when its text was
    up to date: no entry is lost and none added by toggling.  And after a
    click on Clear the panel stays empty whatever the checkbox does: the
    cleared entries do not come back. *)
Theorem debug_toggle_round_trip
    (js : FileConversionView.Platform) (v : FileConversionView.View) (checked : bool) :
  FileConversionView.upToDate js v →
  FileConversionView.handle js
    (FileConversionView.handle js v (FileConversionView.DebugChange checked))
    (FileConversionView.DebugChange (FileConversionView.showDebugLogs v))
  = v
  ∧ FileConversionView.logPanel
      (FileConversionView.handle js
         (FileConversionView.handle js v FileConversionView.ClearClick)
         (FileConversionView.DebugChange checked))
    = Some "".
Proof.
  intros Hv. unfold FileConversionView.upToDate in Hv.
  destruct v as [logs dbg panel input button reads inv settled waits conv].
  cbn in Hv. subst panel.
  split; [reflexivity|]. cbn. by rewrite ViewFacts.displayText_nil.
Qed.

Lemma debug_toggle_round_trip_witness :
  let js := FileConversionView.mkPlatform (λ s, s) (λ _, "12:00:00") (λ s, s) in
  let v := FileConversionView.handle js
             (FileConversionView.handle js FileConversionView.render
                (FileConversionView.BackendLog (mkLogEntry "DEBUG" "details" "now")))
             (FileConversionView.BackendLog (mkLogEntry "ERROR" "failed" "now")) in
  FileConversionView.handle js
    (FileConversionView.handle js v (FileConversionView.DebugChange true))
    (FileConversionView.DebugChange (FileConversionView.showDebugLogs v))
  = v
  ∧ FileConversionView.logPanel
      (FileConversionView.handle js
         (FileConversionView.handle js v FileConversionView.ClearClick)
         (FileConversionView.DebugChange true))
    = Some "".
Proof.
  cbv zeta.
  apply (debug_toggle_round_trip
           (FileConversionView.mkPlatform (λ s, s) (λ _, "12:00:00") (λ s, s))).
  reflexivity.
Defined.

(** X20. Clicks on Start in the file-conversion view, over any history
    since the view was rendered (events, clicks on Start, the listener
    registration settling, backend calls settling in any order).  The
    button is disabled only once the handler is past
    [await setupLogListener()], so while the registration is pending every
    click with a non-blank input is taken and waits; when it settles,
    successfully or not, each of them calls the backend.  Hence the paths
    handed to the backend, followed by those of the handlers still
    waiting, are exactly the trimmed inputs of the clicks made with a
    non-blank input, in click order, one call per click; no handler is left
    waiting once the registration has settled; the backend is never called
    with a blank path; whenever no backend call is awaited the button is
    enabled, whether the conversions succeeded or failed; and no more
    calls are awaited than were made. *)
Theorem start_button_always_released
    (js : FileConversionView.Platform) (steps : list FileConversionView.Step) :
  let v := fold_left (FileConversionView.step js) steps FileConversionView.render in
  FileConversionView.invoked v ++ FileConversionView.waiting v
  = FileConversionView.requests js steps FileConversionView.render
  ∧ (FileConversionView.listenerSettled v = true → FileConversionView.waiting v = [])
  ∧ Forall (λ path, truthy path = true) (FileConversionView.invoked v)
  ∧ (FileConversionView.converting v = 0 → FileConversionView.startButton v = Some false)
  ∧ (FileConversionView.converting v ≤ length (FileConversionView.invoked v))%nat.
Proof.
  cbv zeta.
  destruct (ViewFacts.steps_orderly js steps FileConversionView.render
              ViewFacts.render_orderly) as [(_ & Hw & Hp & He & Hc) Hreq].
  split; [exact Hreq|]. split; [exact Hw|]. split; [|by split].
  by apply Forall_app in Hp as [Hp _].
Qed.

Lemma start_button_always_released_witness :
  let js := FileConversionView.mkPlatform (λ s, s) (λ _, "12:00:00") (λ s, s) in
  let v := fold_left (FileConversionView.step js)
             [FileConversionView.Handled
                (FileConversionView.FolderPicked (EPTAppShell.Resolved (OnePath "/data")));
              FileConversionView.StartClicked;
              FileConversionView.StartClicked;
              FileConversionView.ListenSettled (EPTAppShell.Rejected "no event plugin");
              FileConversionView.ConversionSettled (EPTAppShell.Rejected "engine missing");
              FileConversionView.ConversionSettled (EPTAppShell.Resolved tt)]
             FileConversionView.render in
  FileConversionView.invoked v = ["/data"; "/data"]
  ∧ FileConversionView.startButton v = Some false.
Proof.
  cbv zeta.
  destruct (start_button_always_released
              (FileConversionView.mkPlatform (λ s, s) (λ _, "12:00:00") (λ s, s))
              [FileConversionView.Handled
                 (FileConversionView.FolderPicked (EPTAppShell.Resolved (OnePath "/data")));
               FileConversionView.StartClicked;
               FileConversionView.StartClicked;
               FileConversionView.ListenSettled (EPTAppShell.Rejected "no event plugin");
               FileConversionView.ConversionSettled (EPTAppShell.Rejected "engine missing");
               FileConversionView.ConversionSettled (EPTAppShell.Resolved tt)])
    as (Hreq & Hwait & _ & Hbutton & _).
  split.
  - rewrite (Hwait eq_refl), app_nil_r in Hreq. exact Hreq.
  - exact (Hbutton eq_refl).
Defined.

(** ** The shell: after a job *)

Lemma goClickable_updateUI f p :
  is_Some (goButton p) →
  goClickable (updateUI f p)
  = truthyOpt (selectedPath f) && negb (isProcessing f) && negb (nonNull (processingResult f)).
Proof.
  intros [b Hb]. unfold goClickable, updateUI.
  destruct f as [sel proc lg res lvl cur tot cat msg]. cbn.
  destruct sel as [sel|]; [destruct (truthy sel) eqn:Hsel|]; cbn; rewrite Hb; cbn;
    unfold truthy in *; rewrite ?Hsel; cbn; [|done|done].
  by destruct proc, res.
Qed.

Lemma interleave_nil w : interleave [] w = w.
Proof. done. Qed.

Lemma startProcessing_begin_fields w :
  selectedPath (fields (startProcessing_begin w)) = selectedPath (fields w)
  ∧ isProcessing (fields (startProcessing_begin w)) = true
  ∧ processingResult (fields (startProcessing_begin w)) = None.
Proof. unfold startProcessing_begin. repeat split; by repeat store_step. Qed.

Lemma startProcessing_settle_fields settled w :
  selectedPath (fields (startProcessing_settle settled w)) = selectedPath (fields w)
  ∧ isProcessing (fields (startProcessing_settle settled w)) = false
  ∧ processingResult (fields (startProcessing_settle settled w))
    = match settled with
      | Resolved result => Some result
      | Rejected _ => processingResult (fields w)
      end.
Proof.
  unfold startProcessing_settle. destruct settled; repeat split; by repeat store_step.
Qed.

(** X21. What the page offers once a job is over (no other handler having
    run meanwhile).  After a failed job no result is stored, the selection
    is what it was, and the GO button can be clicked again: the user can
    retry.  After a completed job the result is stored and the GO button
    cannot be clicked. *)
Theorem retry_offered_after_failure (backend : Backend) (w : World) (p : ShellPage) :
  canStart w →
  is_Some (goButton p) →
  let w' := startProcessing backend [] w in
  selectedPath (fields w') = selectedPath (fields w)
  ∧ match start_processing backend (selectedPath (fields w)) with
    | Rejected _ =>
        processingResult (fields w') = None
        ∧ goClickable (updateUI (fields w') p) = true
    | Resolved result =>
        processingResult (fields w') = Some result
        ∧ goClickable (updateUI (fields w') p) = false
    end.
Proof.
  intros Hstart Hgo. cbv zeta. rewrite goClickable_updateUI by done.
  rewrite startProcessing_started by done. destruct Hstart as [Hsel _].
  rewrite interleave_nil.
  destruct (startProcessing_settle_fields
              (start_processing backend (selectedPath (fields w)))
              (startProcessing_begin w)) as (Hs & Hp & Hr).
  destruct (startProcessing_begin_fields w) as (Hs0 & _ & Hr0).
  rewrite Hs, Hp, Hr, Hs0, Hsel.
  destruct (start_processing backend (selectedPath (fields w))) as [result|error];
    rewrite ?Hr0; done.
Qed.

Lemma retry_offered_after_failure_witness :
  let backend := mkBackend Resolved (λ _, Rejected "engine missing") in
  let w := setSelectedPath (Some "/x") (AppState.new (λ _, []) (λ _, "")) in
  let w' := startProcessing backend [] w in
  selectedPath (fields w') = Some "/x"
  ∧ processingResult (fields w') = None
  ∧ goClickable (updateUI (fields w') initialPage) = true.
Proof.
  cbv zeta.
  pose proof (retry_offered_after_failure
    (mkBackend Resolved (λ _, Rejected "engine missing"))
    (setSelectedPath (Some "/x") (AppState.new (λ _, []) (λ _, "")))
    initialPage ltac:(split; reflexivity) ltac:(eexists; reflexivity)) as H.
  cbv zeta in H. exact H.
Defined.

(** ** The shell: a run *)






















